(** * snake: Cartesian structured meshes ([snake/cartesianMesh.py])

    A shallow embedding of the classes [Segment], [GridLine] and
    [CartesianStructuredMesh] and the properties stated about them.

    Conventions of the embedding.
    - A Python [float] (and a [numpy.float64]) is a real number of [R]:
      arithmetic is exact, so rounding errors, overflow, infinities and NaN
      are outside the model.  An [int] is a [Z]; a 1D numpy array is a
      [list R].
    - An exception is a value of [exn]; a computation that can raise has a
      type [result A].  A [while] loop has a fuel argument and answers
      [None] when the fuel is used up before the loop has ended.
    - The module is Python 2 code (it calls the builtin [reduce]): [round]
      rounds halves away from zero and [int] truncates toward zero.
    - The numbers of the YAML data are floats.  A grid file is modelled by
      its content, the integers of its header and the floats that follow.
    - Messages written by [print] are not modelled. *)

From Stdlib Require Import String.
From Stdlib Require Import Reals.Reals Lra Lia ZArith List Bool.
Import ListNotations.

Open Scope R_scope.

(** ** Exceptions *)

Inductive exn : Type :=
| ValueError          (* math domain error, negative dimension, empty concatenate *)
| ZeroDivisionError   (* float division by zero *)
| IndexError          (* index out of range *)
| AttributeError      (* attribute read before it was ever assigned *)
| IOError             (* no file at the path *)
| SystemExit.         (* sys.exit *)

Inductive result (A : Type) : Type :=
| Ok (a : A)
| Raise (e : exn).

Arguments Ok {A} a.
Arguments Raise {A} e.

Definition bind {A B : Type} (m : result A) (k : A -> result B) : result B :=
  match m with
  | Ok a => k a
  | Raise e => Raise e
  end.

Notation "x <- m ;; k" := (bind m (fun x => k))
  (at level 61, m at next level, right associativity).

Fixpoint mapM {A B : Type} (f : A -> result B) (l : list A) : result (list B) :=
  match l with
  | [] => Ok []
  | a :: l' => b <- f a ;; bs <- mapM f l' ;; Ok (b :: bs)
  end.

(** Reading an attribute of an object: [None] is an attribute that was
    never assigned. *)
Definition attr {A : Type} (a : option A) : result A :=
  match a with
  | Some x => Ok x
  | None => Raise AttributeError
  end.

(** A computation that may also run out of fuel. *)
Definition fbind {A B : Type} (m : option (result A))
           (k : A -> option (result B)) : option (result B) :=
  match m with
  | Some (Ok a) => k a
  | Some (Raise e) => Some (Raise e)
  | None => None
  end.

Notation "x <~ m ;; k" := (fbind m (fun x => k))
  (at level 61, m at next level, right associativity).

(** ** Numbers of the Python runtime *)

(** [math.floor] as an integer. *)
Definition Zfloor (x : R) : Z := Int_part x.

(** [math.ceil] as an integer. *)
Definition Zceil (x : R) : Z := (- Int_part (- x))%Z.

(** [int(x)] on a float: truncation toward zero. *)
Definition py_int (x : R) : Z :=
  if Rle_dec 0 x then Zfloor x else Zceil x.

(** [int(round(x))] in Python 2: the nearest integer, halves away from zero. *)
Definition int_round (x : R) : Z :=
  if Rle_dec 0 x then Zfloor (x + 1 / 2) else Zceil (x - 1 / 2).

(** [numpy.rint]: the nearest integer, halves to the even neighbour. *)
Definition rint (x : R) : Z :=
  let f := Zfloor x in
  if Rlt_dec (x - IZR f) (1 / 2) then f
  else if Rlt_dec (1 / 2) (x - IZR f) then (f + 1)%Z
  else if Z.even f then f else (f + 1)%Z.

(** [numpy.round(x, precision)]: [rint(x * 10**precision) / 10**precision]. *)
Definition np_round (precision : Z) (x : R) : R :=
  IZR (rint (x * powerRZ 10 precision)) / powerRZ 10 precision.

(** Float division [a / b] of two Python floats. *)
Definition py_div (a b : R) : result R :=
  if Req_dec_T b 0 then Raise ZeroDivisionError else Ok (a / b).

(** [math.log]. *)
Definition math_log (x : R) : result R :=
  if Rlt_dec 0 x then Ok (ln x) else Raise ValueError.

(** [a ** n] for a float [a] and an integer [n].  Python refuses a zero
    base with a negative exponent; the bases of this module are [0.1] and
    ratios whose logarithm has been taken, which are positive. *)
Definition py_pow (a : R) (n : Z) : R := powerRZ a n.

(** ** numpy array helpers *)

(** [numpy.all(a)]: every entry is truthy, that is, different from [0.0]. *)
Definition np_all (a : list R) : bool :=
  forallb (fun x => if Req_dec_T x 0 then false else true) a.

(** The guard [numpy.all(vertices)] when [vertices] may be [None]. *)
Definition np_all_opt (a : option (list R)) : bool :=
  match a with
  | Some l => np_all l
  | None => false
  end.

(** [range(n)] as integers. *)
Definition Zrange (n : nat) : list Z := map Z.of_nat (seq 0 n).

(** [numpy.arange(start, stop, step)] on floats: [ceil((stop-start)/step)]
    entries [start + i*step]; no entry when that count is not positive. *)
Definition np_arange (start stop step : R) : list R :=
  map (fun i => start + IZR i * step)
      (Zrange (Z.to_nat (Zceil ((stop - start) / step)))).

(** [numpy.cumprod] and [numpy.cumsum]. *)
Fixpoint cumprod_from (acc : R) (l : list R) : list R :=
  match l with
  | [] => []
  | x :: l' => (acc * x) :: cumprod_from (acc * x) l'
  end.

Definition np_cumprod (l : list R) : list R := cumprod_from 1 l.

Fixpoint cumsum_from (acc : R) (l : list R) : list R :=
  match l with
  | [] => []
  | x :: l' => (acc + x) :: cumsum_from (acc + x) l'
  end.

Definition np_cumsum (l : list R) : list R := cumsum_from 0 l.

(** [widths = numpy.empty(n); widths[0], widths[1:] = width, ratio]:
    a negative [n] is refused by [numpy.empty], and [widths[0]] does not
    exist when [n = 0]. *)
Definition fill_widths (n : Z) (width ratio : R) : result (list R) :=
  if (n <? 0)%Z then Raise ValueError
  else if (n =? 0)%Z then Raise IndexError
  else Ok (width :: repeat ratio (Z.to_nat (n - 1))).

(** ** Loops *)

(** [while cond(s): s = body(s)], with fuel. *)
Fixpoint while_loop {S : Type} (fuel : nat) (cond : S -> bool)
         (body : S -> result S) (s : S) : option (result S) :=
  if cond s then
    match fuel with
    | O => None
    | Datatypes.S fuel' =>
        match body s with
        | Ok s' => while_loop fuel' cond body s'
        | Raise e => Some (Raise e)
        end
    end
  else Some (Ok s).

(** ** Segment *)

Module Segment.

(** A [Segment] object.  An attribute that has not been assigned yet is
    [None]; reading it raises [AttributeError]. *)
Record t : Type := mk {
  start : option R;
  end_ : option R;
  width : option R;
  stretch_ratio : option R;
  aspect_ratio : option R;
  vertices : option (list R);
  nb_divisions : option Z
}.

Definition new_segment : t :=
  mk None None None None None None None.

Definition set_bounds (self : t) (s e : R) : t :=
  mk (Some s) (Some e) (width self) (stretch_ratio self)
            (aspect_ratio self) (vertices self) (nb_divisions self).

Definition set_width (self : t) (w : R) : t :=
  mk (start self) (end_ self) (Some w) (stretch_ratio self)
            (aspect_ratio self) (vertices self) (nb_divisions self).

Definition set_stretch_ratio (self : t) (r : R) : t :=
  mk (start self) (end_ self) (width self) (Some r)
            (aspect_ratio self) (vertices self) (nb_divisions self).

Definition set_aspect_ratio (self : t) (a : R) : t :=
  mk (start self) (end_ self) (width self) (stretch_ratio self)
            (Some a) (vertices self) (nb_divisions self).

Definition set_vertices (self : t) (v : list R) : t :=
  mk (start self) (end_ self) (width self) (stretch_ratio self)
            (aspect_ratio self) (Some v) (nb_divisions self).

Definition set_nb_divisions (self : t) (n : Z) : t :=
  mk (start self) (end_ self) (width self) (stretch_ratio self)
            (aspect_ratio self) (vertices self) (Some n).

(** The entries of a sub-domain as [Segment] receives them from
    [GridLine.create_from_yaml_data], every key present. *)
Record SegmentData : Type := mkSegmentData {
  d_start : R;
  d_end : R;
  d_width : R;
  d_stretchRatio : R;
  d_aspectRatio : R;
  d_precision : Z;
  d_reverse : bool
}.

(** [abs(self.end-self.start)]. *)
Definition segment_length (self : t) : result R :=
  e <- attr (end_ self) ;;
  s <- attr (start self) ;;
  Ok (Rabs (e - s)).

(** [math.log(1.0-length/width*(1.0-ratio))/math.log(ratio)], the real
    number of stretched divisions that fit the length. *)
Definition log_quotient (length width ratio : R) : result R :=
  q <- py_div length width ;;
  a <- math_log (1 - q * (1 - ratio)) ;;
  b <- math_log ratio ;;
  py_div a b.

(** [Segment.get_vertices]: the vertices, and [self] with [aspect_ratio]
    (and [stretch_ratio] when reversed) assigned. *)
Definition get_vertices (self : t) (reverse : bool)
  : result (list R * t) :=
  length <- segment_length self ;;
  width <- attr (width self) ;;
  ratio <- attr (stretch_ratio self) ;;
  if Rlt_dec (Rabs (ratio - 1)) 1e-6 then
    (* uniform discretization *)
    let self := set_aspect_ratio self 1 in
    q <- py_div length width ;;
    if Rlt_dec 1e-12 (Rabs (IZR (int_round q) - q)) then Raise SystemExit
    else
      s <- attr (start self) ;;
      e <- attr (end_ self) ;;
      Ok (np_arange s (e + width / 2) width, self)
  else
    (* stretched discretization *)
    x <- log_quotient length width ratio ;;
    let n := int_round x in
    widths <- fill_widths n width ratio ;;
    let widths := np_cumprod widths in
    let self := set_aspect_ratio self (last widths 0 / hd 0 widths) in
    if reverse then
      let self := set_stretch_ratio self (1 / ratio) in
      e <- attr (end_ self) ;;
      Ok (rev (e :: map (fun c => e - c) (np_cumsum widths)), self)
    else
      s <- attr (start self) ;;
      Ok (s :: map (fun c => s + c) (np_cumsum widths), self).

Section StretchRatio.

(** [Decimal(str(ratio)).as_tuple().exponent]: the exponent of the decimal
    literal that [str] prints for [ratio] (minus the number of digits after
    the decimal point).  It belongs to the Python runtime, so the searches
    take it as a parameter. *)
Variable decimal_exponent : R -> Z.

(** The loop state of [compute_stretch_ratio]. *)
Record CoarseState : Type := mkCoarse {
  c_ratio : R;
  current_precision : Z
}.

(** One pass through the body of the loop of [compute_stretch_ratio]. *)
Definition coarse_body (length width aspect_ratio : R) (s : CoarseState)
  : result CoarseState :=
  x <- log_quotient length width (c_ratio s) ;;
  let n := int_round x in
  let candidate_aspect_ratio := py_pow (c_ratio s) (n - 1) in
  if Rlt_dec candidate_aspect_ratio aspect_ratio then
    Ok (mkCoarse (c_ratio s + py_pow 0.1 (current_precision s))
                 (current_precision s + 1))
  else
    Ok (mkCoarse (c_ratio s - py_pow 0.1 (current_precision s))
                 (current_precision s)).

(** [Segment.compute_stretch_ratio]. *)
Definition compute_stretch_ratio (fuel : nat) (self : t)
           (width aspect_ratio : R) (precision : Z) : option (result R) :=
  length <~ Some (segment_length self) ;;
  s <~ while_loop fuel
         (fun s => (current_precision s <? precision)%Z)
         (coarse_body length width aspect_ratio)
         (mkCoarse 2 1) ;;
  Some (Ok (c_ratio s)).

(** The inner function [geometric_sum(a, r, n)]. *)
Definition geometric_sum (a r : R) (n : Z) : result R :=
  py_div (a * (1 - py_pow r n)) (1 - r).

(** The loop state of [compute_optimal_stretch_ratio]. *)
Record FineState : Type := mkFine {
  f_ratio : R;
  precision_ratio : Z
}.

(** [math.log(1.0-(1.0-ratio)*length/width)/math.log(ratio)]. *)
Definition log_quotient_fine (length width ratio : R) : result R :=
  q <- py_div ((1 - ratio) * length) width ;;
  a <- math_log (1 - q) ;;
  b <- math_log ratio ;;
  py_div a b.

(** One pass through the body of the loop of
    [compute_optimal_stretch_ratio]. *)
Definition fine_body (length width : R) (s : FineState) : result FineState :=
  x <- log_quotient_fine length width (f_ratio s) ;;
  let n := py_int x in
  g_inf <- geometric_sum width (f_ratio s) n ;;
  let deviation_inf := Rabs (length - g_inf) in
  g_sup <- geometric_sum width (f_ratio s) (n + 1) ;;
  let deviation_sup := Rabs (length - g_sup) in
  let precision_ratio := (precision_ratio s + 1)%Z in
  if Rlt_dec deviation_inf deviation_sup then
    Ok (mkFine (f_ratio s + py_pow 0.1 precision_ratio) precision_ratio)
  else
    Ok (mkFine (f_ratio s - py_pow 0.1 precision_ratio) precision_ratio).

(** [Segment.compute_optimal_stretch_ratio]. *)
Definition compute_optimal_stretch_ratio (fuel : nat) (self : t)
           (width ratio : R) (precision : Z) : option (result R) :=
  length <~ Some (segment_length self) ;;
  s <~ while_loop fuel
         (fun s => (precision_ratio s <? precision)%Z)
         (fine_body length width)
         (mkFine ratio (Z.abs (decimal_exponent ratio))) ;;
  Some (Ok (f_ratio s)).

(** [Segment.get_stretch_ratio]. *)
Definition get_stretch_ratio (fuel : nat) (self : t) (width : R)
           (stretch_ratio aspect_ratio : R) (precision : Z)
  : option (result R) :=
  if Rlt_dec 1e-6 (Rabs (stretch_ratio - 1)) then
    compute_optimal_stretch_ratio fuel self width stretch_ratio precision
  else if Rlt_dec 1e-6 (Rabs (aspect_ratio - 1)) then
    ratio <~ compute_stretch_ratio fuel self width aspect_ratio precision ;;
    compute_optimal_stretch_ratio fuel self width ratio precision
  else Some (Ok 1).

(** [Segment.create_from_yaml_data]. *)
Definition create_from_yaml_data (fuel : nat) (self : t)
           (data : SegmentData) : option (result t) :=
  let self := set_bounds self (d_start data) (d_end data) in
  let self := set_width self (d_width data) in
  w <~ Some (attr (width self)) ;;
  r <~ get_stretch_ratio fuel self w (d_stretchRatio data)
                         (d_aspectRatio data) (d_precision data) ;;
  let self := set_stretch_ratio self r in
  vs <~ Some (get_vertices self (d_reverse data)) ;;
  Some (Ok (set_vertices (snd vs) (fst vs))).

(** [Segment.create_from_vertices]. *)
Definition create_from_vertices (self : t) (v : list R) : t :=
  set_vertices self v.

(** [Segment.__init__(data, vertices)]. *)
Definition init (fuel : nat) (data : option SegmentData)
           (verts : option (list R)) : option (result t) :=
  let self := new_segment in
  self <~ match data with
          | Some d => create_from_yaml_data fuel self d
          | None =>
              if np_all_opt verts then
                match verts with
                | Some v => Some (Ok (create_from_vertices self v))
                | None => Some (Ok self)
                end
              else Some (Ok self)
          end ;;
  v <~ Some (attr (vertices self)) ;;
  Some (Ok (set_nb_divisions self (Z.of_nat (List.length v) - 1))).

(** The loop state of [compute_optimal_stretch_ratio_old]. *)
Record OldState : Type := mkOld {
  o_ratio : R;
  o_precision_ratio : Z
}.

(** The [try] block of [compute_optimal_stretch_ratio_old] with its bare
    [except]: the candidate length, or [0.0] when anything was raised. *)
Definition old_candidate_length (length width ratio : R) : R :=
  match (x <- log_quotient_fine length width ratio ;;
         let n := int_round x in
         py_div (width * (1 - py_pow ratio n)) (1 - ratio)) with
  | Ok candidate_length => candidate_length
  | Raise _ => 0
  end.

(** One pass through the body of the loop of
    [compute_optimal_stretch_ratio_old]. *)
Definition old_body (length width : R) (s : OldState) : result OldState :=
  let candidate_length := old_candidate_length length width (o_ratio s) in
  if Rlt_dec candidate_length length then
    Ok (mkOld (o_ratio s + py_pow 0.1 (o_precision_ratio s))
              (o_precision_ratio s + 1))
  else
    Ok (mkOld (o_ratio s - py_pow 0.1 (o_precision_ratio s))
              (o_precision_ratio s)).

(** [Segment.compute_optimal_stretch_ratio_old] (deprecated). *)
Definition compute_optimal_stretch_ratio_old (fuel : nat) (self : t)
           (width ratio : R) (precision : Z) : option (result R) :=
  length <~ Some (segment_length self) ;;
  s <~ while_loop fuel
         (fun s => (o_precision_ratio s <? precision)%Z)
         (old_body length width)
         (mkOld ratio (Z.abs (decimal_exponent ratio))) ;;
  Some (Ok (o_ratio s)).

(** The dictionary that [generate_yaml_info] returns. *)
Record Info : Type := mkInfo {
  i_end : R;
  i_cells : Z;
  i_stretchRatio : R
}.

(** [Segment.generate_yaml_info]. *)
Definition generate_yaml_info (self : t) : result Info :=
  e <- attr (end_ self) ;;
  cells <- attr (nb_divisions self) ;;
  r <- attr (stretch_ratio self) ;;
  Ok (mkInfo e cells r).

End StretchRatio.

End Segment.

(** ** More numpy helpers, on whole arrays *)

(** [numpy.concatenate]: an empty sequence of arrays is refused. *)
Definition np_concatenate (arrays : list (list R)) : result (list R) :=
  match arrays with
  | [] => Raise ValueError
  | _ => Ok (concat arrays)
  end.

Fixpoint insert_sorted (x : R) (l : list R) : list R :=
  match l with
  | [] => [x]
  | y :: l' => if Rle_dec x y then x :: l else y :: insert_sorted x l'
  end.

(** Ascending sort. *)
Definition np_sort (l : list R) : list R := fold_right insert_sorted [] l.

(** One entry kept of every run of equal neighbours. *)
Fixpoint dedup_adjacent (l : list R) : list R :=
  match l with
  | [] => []
  | x :: l' =>
      match l' with
      | [] => [x]
      | y :: _ => if Req_dec_T x y then dedup_adjacent l'
                  else x :: dedup_adjacent l'
      end
  end.

(** [numpy.unique]: the sorted distinct values. *)
Definition np_unique (l : list R) : list R := dedup_adjacent (np_sort l).

(** A bound [i] of a Python slice of a sequence of [len] entries. *)
Definition py_index (len i : Z) : Z :=
  if (i <? 0)%Z then Z.max (i + len) 0 else Z.min i len.

(** [l[st:en]]. *)
Definition py_slice {A : Type} (l : list A) (st en : Z) : list A :=
  let len := Z.of_nat (List.length l) in
  let st' := py_index len st in
  let en' := py_index len en in
  firstn (Z.to_nat (en' - st')) (skipn (Z.to_nat st') l).

Fixpoint slices {A : Type} (l : list A) (points : list Z) : list (list A) :=
  match points with
  | [] => []
  | st :: rest =>
      match rest with
      | [] => []
      | en :: _ => py_slice l st en :: slices l rest
      end
  end.

(** [numpy.split(l, indices)]: the slices between consecutive entries of
    [[0] + indices + [len(l)]]. *)
Definition np_split {A : Type} (l : list A) (indices : list Z)
  : list (list A) :=
  slices l (0%Z :: indices ++ [Z.of_nat (List.length l)]).

Fixpoint Zcumsum_from (acc : Z) (l : list Z) : list Z :=
  match l with
  | [] => []
  | x :: l' => (acc + x)%Z :: Zcumsum_from (acc + x)%Z l'
  end.

(** [numpy.cumsum] on integers. *)
Definition Zcumsum (l : list Z) : list Z := Zcumsum_from 0%Z l.

(** The builtin [sum] on integers. *)
Definition Zsum (l : list Z) : Z := fold_left Z.add l 0%Z.

(** [reduce(f, l, init)]. *)
Definition reduce {A B : Type} (f : A -> B -> A) (l : list B) (init : A) : A :=
  fold_left f l init.

(** ** GridLine *)

Module GridLine.

(** A sub-domain of the YAML data; the optional keys may be missing. *)
Record SubDomain : Type := mkSubDomain {
  y_end : R;
  y_width : R;
  y_stretchRatio : option R;
  y_aspectRatio : option R;
  y_reverse : option bool;
  y_precision : option Z
}.

(** The YAML data of a gridline. *)
Record Data : Type := mkData {
  y_direction : string;
  y_start : R;
  y_subDomains : list SubDomain
}.

(** A [GridLine] object; an attribute not assigned yet is [None]. *)
Record t : Type := mk {
  label : option string;
  start : option R;
  end_ : option R;
  segments : list Segment.t;
  nb_divisions : option Z
}.

Definition default {A : Type} (d : A) (o : option A) : A :=
  match o with
  | Some a => a
  | None => d
  end.

(** [GridLine.get_vertices(precision)]. *)
Definition get_vertices (self : t) (precision : Z) : result (list R) :=
  rounded <- mapM (fun segment =>
                     v <- attr (Segment.vertices segment) ;;
                     Ok (map (np_round precision) v))
                  (segments self) ;;
  all <- np_concatenate rounded ;;
  Ok (np_unique all).

(** The dictionary that [generate_yaml_info] returns.  The direction is
    the label, which may be the value [None]. *)
Record Info : Type := mkInfo {
  i_direction : option string;
  i_start : R;
  i_subDomains : list Segment.Info
}.

(** [GridLine.generate_yaml_info]. *)
Definition generate_yaml_info (self : t) : result Info :=
  let direction := label self in
  s <- attr (start self) ;;
  subDomains <- mapM Segment.generate_yaml_info (segments self) ;;
  Ok (mkInfo direction s subDomains).

Section Create.

Variable decimal_exponent : R -> Z.

(** The sub-domain [node] of rank [index], completed as the loop of
    [create_from_yaml_data] completes it: its start and the defaults of
    the missing keys. *)
Definition complete_node (data : Data) (index : nat) (node : SubDomain)
  : Segment.SegmentData :=
  Segment.mkSegmentData
    (if Nat.eqb index 0 then y_start data
     else y_end (nth (index - 1) (y_subDomains data) node))
    (y_end node)
    (y_width node)
    (default 1 (y_stretchRatio node))
    (default 1 (y_aspectRatio node))
    (default 6%Z (y_precision node))
    (default false (y_reverse node)).

(** The loop of [create_from_yaml_data] from the sub-domain of rank
    [index] on: the segments appended. *)
Fixpoint create_segments (fuel : nat) (data : Data) (index : nat)
         (nodes : list SubDomain) : option (result (list Segment.t)) :=
  match nodes with
  | [] => Some (Ok [])
  | node :: rest =>
      segment <~ Segment.init decimal_exponent fuel
                   (Some (complete_node data index node)) None ;;
      more <~ create_segments fuel data (S index) rest ;;
      Some (Ok (segment :: more))
  end.

(** [GridLine.create_from_yaml_data]. *)
Definition create_from_yaml_data (fuel : nat) (self : t) (data : Data)
  : option (result t) :=
  match rev (y_subDomains data) with
  | [] => Some (Raise IndexError)
  | last_node :: _ =>
      new <~ create_segments fuel data 0 (y_subDomains data) ;;
      Some (Ok (mk (Some (y_direction data)) (Some (y_start data))
                   (Some (y_end last_node)) (segments self ++ new)
                   (nb_divisions self)))
  end.

(** [GridLine.create_from_vertices]. *)
Definition create_from_vertices (fuel : nat) (self : t) (v : list R)
  : option (result t) :=
  match v, rev v with
  | first :: _, last :: _ =>
      segment <~ Segment.init decimal_exponent fuel None (Some v) ;;
      Some (Ok (mk (label self) (Some first) (Some last)
                   (segments self ++ [segment]) (nb_divisions self)))
  | _, _ => Some (Raise IndexError)
  end.

(** [GridLine.__init__(data, vertices, label)]. *)
Definition init (fuel : nat) (data : option Data)
           (verts : option (list R)) (lbl : option string)
  : option (result t) :=
  let self := mk lbl None None [] None in
  self <~ match data with
          | Some d => create_from_yaml_data fuel self d
          | None =>
              if np_all_opt verts then
                match verts with
                | Some v => create_from_vertices fuel self v
                | None => Some (Ok self)
                end
              else Some (Ok self)
          end ;;
  nbs <~ Some (mapM (fun segment => attr (Segment.nb_divisions segment))
                    (segments self)) ;;
  Some (Ok (mk (label self) (start self) (end_ self) (segments self)
               (Some (Zsum nbs)))).

End Create.

End GridLine.

(** ** CartesianStructuredMesh *)

Module CartesianStructuredMesh.

(** The text of a grid file, by its content: the integers of the first
    line and the floats of the lines that follow.  [str] and [int], and
    [numpy.savetxt] and [numpy.loadtxt], are taken to be inverse of each
    other on them. *)
Record GridFile : Type := mkGridFile {
  header : list Z;
  values : list R
}.

(** The files, by path. *)
Definition filesystem : Type := string -> option GridFile.

Definition store (fs : filesystem) (path : string) (f : GridFile)
  : filesystem :=
  fun p => if String.eqb p path then Some f else fs p.

(** A [CartesianStructuredMesh] object. *)
Record t : Type := mk {
  gridlines : list GridLine.t
}.

(** [CartesianStructuredMesh.__init__]. *)
Definition init : t := mk [].

(** [CartesianStructuredMesh.get_number_cells]. *)
Definition get_number_cells (self : t) : result (Z * list Z) :=
  nb_divisions <- mapM (fun gridline => attr (GridLine.nb_divisions gridline))
                       (gridlines self) ;;
  Ok (reduce Z.mul nb_divisions 1%Z, nb_divisions).

(** [CartesianStructuredMesh.write]: the files after the call.  The file
    that a failing call leaves half written is not modelled. *)
Definition write (self : t) (fs : filesystem) (file_path : string)
           (precision : Z) : result filesystem :=
  cells <- get_number_cells self ;;
  let nb_cells_directions := snd cells in
  blocks <- mapM (fun gridline => GridLine.get_vertices gridline precision)
                 (gridlines self) ;;
  Ok (store fs file_path (mkGridFile nb_cells_directions (concat blocks))).

(** [numpy.loadtxt] squeezes its result: a file of one value gives a
    0-dimensional array, whose [shape[0]] [numpy.split] cannot read. *)
Definition split_loaded (loaded : list R) (indices : list Z)
  : result (list (list R)) :=
  match loaded with
  | [_] => Raise IndexError
  | _ => Ok (np_split loaded indices)
  end.

Definition labels : list string := ["x"; "y"; "z"]%string.

(** The content of the file that [write_yaml_file] writes: the counts
    and the total of its second comment line, and the data that
    [yaml.dump] prints.  The name of the file in the first comment line
    and the layout of the text are not modelled. *)
Record YamlFile : Type := mkYamlFile {
  y_counts : list Z;
  y_total : Z;
  y_data : list GridLine.Info
}.

(** [CartesianStructuredMesh.write_yaml_file]: the content written. *)
Definition write_yaml_file (self : t) : result YamlFile :=
  data <- mapM GridLine.generate_yaml_info (gridlines self) ;;
  cells <- get_number_cells self ;;
  Ok (mkYamlFile (snd cells) (fst cells) data).

Section Populate.

Variable decimal_exponent : R -> Z.

(** [CartesianStructuredMesh.create]. *)
Fixpoint create (fuel : nat) (self : t) (data : list GridLine.Data)
  : option (result t) :=
  match data with
  | [] => Some (Ok self)
  | node :: rest =>
      gridline <~ GridLine.init decimal_exponent fuel (Some node) None None ;;
      create fuel (mk (gridlines self ++ [gridline])) rest
  end.

(** The loop of [read] from the chunk of rank [index] on.  Its chunks are
    the rows of [numpy.array(numpy.split(...))]: the chunks themselves,
    whether they have one length (a 2D array) or not (an array of
    arrays). *)
Fixpoint read_gridlines (fuel : nat) (self : t) (index : nat)
         (chunks : list (list R)) : option (result t) :=
  match chunks with
  | [] => Some (Ok self)
  | vertices_gridline :: rest =>
      match nth_error labels index with
      | None => Some (Raise IndexError)
      | Some lbl =>
          gridline <~ GridLine.init decimal_exponent fuel None
                        (Some vertices_gridline) (Some lbl) ;;
          read_gridlines fuel (mk (gridlines self ++ [gridline]))
                         (S index) rest
      end
  end.

(** [CartesianStructuredMesh.read]. *)
Definition read (fuel : nat) (self : t) (fs : filesystem)
           (file_path : string) : option (result t) :=
  match fs file_path with
  | None => Some (Raise IOError)
  | Some infile =>
      let nb_divisions := header infile in
      chunks <~ Some (split_loaded (values infile)
                        (Zcumsum (map (fun n => (n + 1)%Z)
                                      (removelast nb_divisions)))) ;;
      read_gridlines fuel self 0 chunks
  end.

End Populate.

End CartesianStructuredMesh.

(** ** PetIBMSimulation ([snake/PetIBM/simulation.py]) *)

Module PetIBMSimulation.

(** The part of a [PetIBMSimulation] object that [read_grid] uses: the
    directory of the simulation and the grid, once it has been read. *)
Record t : Type := mk {
  directory : string;
  grid : option (list (list R))
}.

(** [PetIBMSimulation.read_grid(file_name)]: the file
    [directory/file_name] is cut like [CartesianStructuredMesh.read] cuts
    it, and the chunks are kept as they are. *)
Definition read_grid (self : t) (fs : CartesianStructuredMesh.filesystem)
           (file_name : string) : result t :=
  let grid_path := (directory self ++ "/" ++ file_name)%string in
  match fs grid_path with
  | None => Raise IOError
  | Some infile =>
      let n_cells := CartesianStructuredMesh.header infile in
      chunks <- CartesianStructuredMesh.split_loaded
                  (CartesianStructuredMesh.values infile)
                  (Zcumsum (map (fun n => (n + 1)%Z) (removelast n_cells))) ;;
      Ok (mk (directory self) (Some chunks))
  end.

End PetIBMSimulation.

(** * Statements *)

(** The product of the counts of a list. *)
Definition Zproduct (l : list Z) : Z := fold_right Z.mul 1%Z l.

(** A gridline that holds no segment: what [GridLine.__init__] leaves when
    neither of its branches ran. *)
Definition empty_gridline (lbl : option string) : GridLine.t :=
  GridLine.mk lbl None None [] (Some 0%Z).

(** A stand-in for [decimal_exponent] on paths that never print a ratio
    (the reuse path, and uniform sub-domains). *)
Definition unused_exponent : R -> Z := fun _ => 0%Z.

(** A grid file of two directions whose coordinates start at 0.0. *)
Definition zero_based_file : CartesianStructuredMesh.GridFile :=
  CartesianStructuredMesh.mkGridFile [2%Z; 2%Z] [0; 0.5; 1; 0; 0.5; 1].

(** The segment that wraps an array of vertices read from a file. *)
Definition segment_of_vertices (v : list R) : Segment.t :=
  Segment.mk None None None None None (Some v)
             (Some (Z.of_nat (List.length v) - 1)%Z).

(** The gridline that wraps an array of vertices read from a file. *)
Definition gridline_of_vertices (lbl : option string) (v : list R)
  : GridLine.t :=
  GridLine.mk lbl (Some (hd 0 v)) (Some (last v 0)) [segment_of_vertices v]
              (Some (Z.of_nat (List.length v) - 1)%Z).

(** The header of a grid file agrees with its data: there are as many
    values as the counts, each plus one, announce. *)
Definition header_matches (f : CartesianStructuredMesh.GridFile) : Prop :=
  Z.of_nat (List.length (CartesianStructuredMesh.values f))
  = Zsum (map (fun n => (n + 1)%Z) (CartesianStructuredMesh.header f)).

(** A grid file that announces 2 and 5 divisions, that is 9 values, and
    holds 6. *)
Definition short_file : CartesianStructuredMesh.GridFile :=
  CartesianStructuredMesh.mkGridFile [2%Z; 5%Z] [1; 2; 3; 4; 5; 6].

(** [self] as [Segment.create_from_yaml_data] has it when it calls
    [get_vertices]: the bounds, the width and the resolved stretch ratio
    are assigned, nothing else is. *)
Definition prepared (s e w r : R) : Segment.t :=
  Segment.mk (Some s) (Some e) (Some w) (Some r) None None None.

(** A segment is uniform when its resolved ratio is within 1e-6 of 1. *)
Definition uniform (r : R) : Prop := Rabs (r - 1) < 1e-6.

(** Each entry is smaller than the next. *)
Fixpoint strictly_increasing (l : list R) : Prop :=
  match l with
  | [] => True
  | x :: l' =>
      match l' with
      | [] => True
      | y :: _ => x < y /\ strictly_increasing l'
      end
  end.

(** The mirror image of the vertices [vs] of a segment from [s] to [e]
    about its midpoint, put back in ascending order. *)
Definition mirror (s e : R) (vs : list R) : list R :=
  rev (map (fun v => s + e - v) vs).

(** What the reversed call returns, from what the forward call returns. *)
Definition mirror_outcome (s e r : R) (forward : result (list R * Segment.t))
  : result (list R * Segment.t) :=
  match forward with
  | Ok (vs, self) => Ok (mirror s e vs, Segment.set_stretch_ratio self (1 / r))
  | Raise x => Raise x
  end.

(** [x] is within [tol] of an integer. *)
Definition within_of_integer (tol x : R) : Prop :=
  exists k : Z, Rabs (x - IZR k) <= tol.

(** The arithmetic sequence of [n] terms from [s] with the constant step
    [w]. *)
Fixpoint arithmetic_sequence (s w : R) (n : nat) : list R :=
  match n with
  | O => []
  | S n' => s :: arithmetic_sequence (s + w) w n'
  end.

(** The quotient of logarithms of the coarse search, as the specification
    writes it: [log(1 - length/width*(1-ratio)) / log(ratio)].  It is not
    defined, and Python raises, where the width is 0 or the ratio is 1 (a
    division by zero) and where a logarithm is taken of a number that is
    not positive. *)
Definition quotient_of_logarithms (length width ratio : R) : result R :=
  if Req_dec_T width 0 then Raise ZeroDivisionError
  else if Rle_dec (1 - length / width * (1 - ratio)) 0 then Raise ValueError
  else if Rle_dec ratio 0 then Raise ValueError
  else if Req_dec_T ratio 1 then Raise ZeroDivisionError
  else Ok (ln (1 - length / width * (1 - ratio)) / ln ratio).




(** [self] as [Segment.create_from_yaml_data] has it when it calls
    [get_stretch_ratio]: only the bounds and the width are assigned. *)
Definition with_bounds (s e w : R) : Segment.t :=
  Segment.mk (Some s) (Some e) (Some w) None None None None.

(** The finite geometric sum [S(a, r, k) = a*(1-r^k)/(1-r)]. *)
Definition geometric_S (a r : R) (k : Z) : R :=
  a * (1 - powerRZ r k) / (1 - r).

(** The quotient of logarithms of the refinement, as the specification
    writes it: [log(1 - (1-ratio)*length/width) / log(ratio)], with the
    cases where it is not defined as for [quotient_of_logarithms]. *)
Definition quotient_of_logarithms_fine (length width ratio : R) : result R :=
  if Req_dec_T width 0 then Raise ZeroDivisionError
  else if Rle_dec (1 - (1 - ratio) * length / width) 0 then Raise ValueError
  else if Rle_dec ratio 0 then Raise ValueError
  else if Req_dec_T ratio 1 then Raise ZeroDivisionError
  else Ok (ln (1 - (1 - ratio) * length / width) / ln ratio).

(** One pass of the refinement, as the specification words it: [n] is the
    floor of the quotient of logarithms, the deviations of the length from
    the sums of [n] and of [n+1] divisions are compared, [precision_ratio]
    goes up by one, and the ratio goes up by [0.1^precision_ratio] when the
    deviation for [n] is the smaller one, down by it otherwise. *)
Definition refine_step (length width ratio : R) (precision_ratio : Z)
  : result (R * Z) :=
  x <- quotient_of_logarithms_fine length width ratio ;;
  let n := Zfloor x in
  let deviation_n := Rabs (length - geometric_S width ratio n) in
  let deviation_n1 := Rabs (length - geometric_S width ratio (n + 1)) in
  let precision_ratio := (precision_ratio + 1)%Z in
  if Rlt_dec deviation_n deviation_n1 then
    Ok (ratio + powerRZ 0.1 precision_ratio, precision_ratio)
  else
    Ok (ratio - powerRZ 0.1 precision_ratio, precision_ratio).

(** [passes] passes of the refinement. *)
Fixpoint refine (passes : nat) (length width ratio : R) (precision_ratio : Z)
  : result R :=
  match passes with
  | O => Ok ratio
  | S passes' =>
      p <- refine_step length width ratio precision_ratio ;;
      refine passes' length width (fst p) (snd p)
  end.


(** Each entry is at most the next. *)
Fixpoint weakly_increasing (l : list R) : Prop :=
  match l with
  | [] => True
  | x :: l' =>
      match l' with
      | [] => True
      | y :: _ => x <= y /\ weakly_increasing l'
      end
  end.

(** The arrays follow one another: each is increasing and not empty, and
    each ends on the value the next one starts with. *)
Fixpoint chained (arrays : list (list R)) : Prop :=
  match arrays with
  | [] => True
  | a :: rest =>
      a <> [] /\ strictly_increasing a
      /\ match rest with
         | [] => True
         | b :: _ => b <> [] /\ last a 0 = hd 0 b
         end
      /\ chained rest
  end.

(** The vertices of the segments of a gridline, rounded as
    [GridLine.get_vertices] rounds them. *)
Definition rounded_arrays (g : GridLine.t) (precision : Z) : list (list R) :=
  map (fun segment =>
         map (np_round precision)
             (GridLine.default [] (Segment.vertices segment)))
      (GridLine.segments g).

(** A segment as [Segment.__init__] returns it: it has vertices, and its
    number of divisions is their number minus one. *)
Definition built_segment (segment : Segment.t) : Prop :=
  exists v, Segment.vertices segment = Some v
            /\ Segment.nb_divisions segment
               = Some (Z.of_nat (List.length v) - 1)%Z.

(** The exponent of a literal with one digit after the point, such as
    ['2.0'], which is how [str] prints the only ratio that the examples
    below hand to [compute_optimal_stretch_ratio]. *)
Definition one_decimal_exponent : R -> Z := fun _ => (-1)%Z.

(** The uniform segment of [m] divisions of width [w] from [s] to [e], as
    [Segment.__init__] builds it from YAML data. *)
Definition uniform_segment (s e w : R) (m : nat) : Segment.t :=
  Segment.mk (Some s) (Some e) (Some w) (Some 1) (Some 1)
             (Some (arithmetic_sequence s w (S m))) (Some (Z.of_nat m)).

(** A sub-domain that gives only the two mandatory keys. *)
Definition plain_subdomain (e w : R) : GridLine.SubDomain :=
  GridLine.mkSubDomain e w None None None None.

(** Two uniform sub-domains that share the boundary 0.5. *)
Definition shared_boundary_data : GridLine.Data :=
  GridLine.mkData "x" 0 [plain_subdomain 0.5 0.25; plain_subdomain 1 0.25].

(** A sub-domain stretched forward with the ratio 2 (kept as given: the
    precision 1 asks for no more digits than ['2.0'] has), followed by a
    uniform sub-domain. *)
Definition stretched_then_uniform_data : GridLine.Data :=
  GridLine.mkData "x" 0
    [GridLine.mkSubDomain 1 0.5 (Some 2) None None (Some 1%Z);
     plain_subdomain 2 1].

(** The YAML data of a mesh of two directions, each from 0 to 1 in two
    uniform divisions of width 0.5. *)
Definition unit_square_data : list GridLine.Data :=
  [GridLine.mkData "x" 0 [plain_subdomain 1 0.5];
   GridLine.mkData "y" 0 [plain_subdomain 1 0.5]].

(** The file system with no file. *)
Definition no_file : CartesianStructuredMesh.filesystem := fun _ => None.

(** The gridline built from [shared_boundary_data]. *)
Definition shared_boundary_line : GridLine.t :=
  GridLine.mk (Some "x"%string) (Some 0) (Some 1)
    [uniform_segment 0 0.5 0.25 2; uniform_segment 0.5 1 0.25 2]
    (Some 4%Z).

(** The gridline built from [stretched_then_uniform_data]: the stretched
    segment has the vertices 0, 0.5 and 1.5. *)
Definition stretched_then_uniform_line : GridLine.t :=
  GridLine.mk (Some "x"%string) (Some 0) (Some 2)
    [Segment.mk (Some 0) (Some 1) (Some 0.5) (Some 2) (Some 2)
                (Some [0; 0.5; 1.5]) (Some 2%Z);
     uniform_segment 1 2 1 1]
    (Some 3%Z).

(** The gridline of direction [lbl] built from [unit_square_data]. *)
Definition unit_line (lbl : string) : GridLine.t :=
  GridLine.mk (Some lbl) (Some 0) (Some 1) [uniform_segment 0 1 0.5 2]
              (Some 2%Z).

(** The mesh that [create] builds from [unit_square_data]. *)
Definition unit_square_mesh : CartesianStructuredMesh.t :=
  CartesianStructuredMesh.mk [unit_line "x"; unit_line "y"].

(** The mesh that [read] builds from the grid file of
    [unit_square_mesh]. *)
Definition unit_square_read_back : CartesianStructuredMesh.t :=
  CartesianStructuredMesh.mk
    [empty_gridline (Some "x"%string); empty_gridline (Some "y"%string)].

(** Every gridline of the mesh has its [nb_divisions] assigned. *)
Definition counted (m : CartesianStructuredMesh.t) : Prop :=
  exists per : list Z,
    map GridLine.nb_divisions (CartesianStructuredMesh.gridlines m)
    = map Some per.

(** The starts of the segments of a gridline: the start of the gridline,
    then the end of each sub-domain but the last. *)
Fixpoint segment_starts (first : R) (nodes : list GridLine.SubDomain)
  : list R :=
  match nodes with
  | [] => []
  | node :: rest => first :: segment_starts (GridLine.y_end node) rest
  end.

(** The end of the sub-domain before the one of rank [length before], or
    the start of the gridline when there is none. *)
Definition previous_end (data : GridLine.Data)
           (before : list GridLine.SubDomain) : R :=
  match rev before with
  | [] => GridLine.y_start data
  | node :: _ => GridLine.y_end node
  end.

(** A segment that [generate_yaml_info] can describe. *)
Definition described_segment (segment : Segment.t) : Prop :=
  exists e n r,
    Segment.end_ segment = Some e
    /\ Segment.nb_divisions segment = Some n
    /\ Segment.stretch_ratio segment = Some r.

(** The offsets at which the blocks of a concatenation start and end,
    counted from [off]. *)
Fixpoint boundaries (off : Z) (blocks : list (list R)) : list Z :=
  match blocks with
  | [] => [off]
  | b :: rest => off :: boundaries (off + Z.of_nat (List.length b)) rest
  end.

(** The header that [write] gives to blocks of vertices: the number of
    divisions of each. *)
Definition counts_of (blocks : list (list R)) : list Z :=
  map (fun b => (Z.of_nat (List.length b) - 1)%Z) blocks.

(** The gridlines that [read] builds from blocks of non-zero vertices,
    labelled by position from the rank [index] on. *)
Fixpoint lines_of_blocks (index : nat) (blocks : list (list R))
  : list GridLine.t :=
  match blocks with
  | [] => []
  | b :: rest =>
      gridline_of_vertices
        (Some (nth index CartesianStructuredMesh.labels ""%string)) b
      :: lines_of_blocks (S index) rest
  end.

(** The gridline of direction [lbl] from 1 to 2 in two uniform divisions,
    and the mesh of two such gridlines. *)
Definition offset_line (lbl : string) : GridLine.t :=
  GridLine.mk (Some lbl) (Some 1) (Some 2) [uniform_segment 1 2 0.5 2]
              (Some 2%Z).

Definition offset_square_mesh : CartesianStructuredMesh.t :=
  CartesianStructuredMesh.mk [offset_line "x"; offset_line "y"].

(** * Properties *)

(** ** Integer parts *)

Lemma Zfloor_bounds (x : R) : IZR (Zfloor x) <= x < IZR (Zfloor x) + 1.
Proof.
  unfold Zfloor. destruct (base_Int_part x) as [H1 H2]. split; lra.
Qed.

Lemma Zfloor_eq (x : R) (z : Z) : IZR z <= x < IZR z + 1 -> Zfloor x = z.
Proof.
  intros [H1 H2]. unfold Zfloor. symmetry. apply Int_part_spec. split; lra.
Qed.

Lemma Zceil_bounds (x : R) : IZR (Zceil x) - 1 < x <= IZR (Zceil x).
Proof.
  unfold Zceil. rewrite opp_IZR.
  destruct (base_Int_part (- x)) as [H1 H2]. split; lra.
Qed.

Lemma Zceil_eq (x : R) (z : Z) : IZR z - 1 < x <= IZR z -> Zceil x = z.
Proof.
  intros [H1 H2]. unfold Zceil.
  assert (H : (- z)%Z = Int_part (- x)).
  { apply Int_part_spec. rewrite opp_IZR. split; lra. }
  rewrite <- H. lia.
Qed.

Lemma Zfloor_IZR (z : Z) : Zfloor (IZR z) = z.
Proof. apply Zfloor_eq. lra. Qed.

Lemma Zceil_IZR (z : Z) : Zceil (IZR z) = z.
Proof. apply Zceil_eq. lra. Qed.

Lemma int_round_eq (x : R) (z : Z) :
  IZR z - 1 / 2 < x < IZR z + 1 / 2 -> int_round x = z.
Proof.
  intros [H1 H2]. unfold int_round.
  destruct (Rle_dec 0 x).
  - apply Zfloor_eq. lra.
  - apply Zceil_eq. lra.
Qed.

Lemma int_round_IZR (z : Z) : int_round (IZR z) = z.
Proof. apply int_round_eq. lra. Qed.

Lemma int_round_near (x : R) : Rabs (IZR (int_round x) - x) <= 1 / 2.
Proof.
  unfold int_round. destruct (Rle_dec 0 x).
  - pose proof (Zfloor_bounds (x + 1 / 2)).
    apply Rabs_le. lra.
  - pose proof (Zceil_bounds (x - 1 / 2)).
    apply Rabs_le. lra.
Qed.

Lemma rint_IZR (z : Z) : rint (IZR z) = z.
Proof.
  unfold rint. rewrite Zfloor_IZR.
  destruct (Rlt_dec (IZR z - IZR z) (1 / 2)); [reflexivity | lra].
Qed.


(** ** Cell counts *)

Lemma mapM_attr_some {A B : Type} (f : A -> option B) (l : list A)
      (vals : list B) :
  map f l = map Some vals -> mapM (fun a => attr (f a)) l = Ok vals.
Proof.
  revert vals. induction l as [| a l IH]; intros [| v vals] H;
    simpl in *; try discriminate; try reflexivity.
  injection H as Ha Hl. rewrite Ha. simpl. rewrite (IH _ Hl). reflexivity.
Qed.

Lemma reduce_mul_product (l : list Z) : reduce Z.mul l 1%Z = Zproduct l.
Proof.
  unfold reduce, Zproduct. apply fold_symmetric; intros; lia.
Qed.

(** C7. [get_number_cells] returns the list of the gridlines'
    [nb_divisions], in order, and their product as the total; on the empty
    mesh it returns the total 1 and the empty list. *)
Theorem get_number_cells_total_and_directions
        (m : CartesianStructuredMesh.t) (per : list Z) :
  map GridLine.nb_divisions (CartesianStructuredMesh.gridlines m)
    = map Some per ->
  CartesianStructuredMesh.get_number_cells m = Ok (Zproduct per, per)
  /\ CartesianStructuredMesh.get_number_cells CartesianStructuredMesh.init
     = Ok (1%Z, []).
Proof.
  intros H. split.
  - unfold CartesianStructuredMesh.get_number_cells.
    rewrite (mapM_attr_some _ _ _ H). simpl.
    rewrite reduce_mul_product. reflexivity.
  - reflexivity.
Qed.

Lemma get_number_cells_total_and_directions_witness :
  CartesianStructuredMesh.get_number_cells unit_square_mesh
  = Ok (Zproduct [2%Z; 2%Z], [2%Z; 2%Z]).
Proof.
  apply (get_number_cells_total_and_directions unit_square_mesh
                                               [2%Z; 2%Z]).
  reflexivity.
Defined.

(** ** Arrays that hold a zero *)

Lemma np_all_zero (v : list R) : In 0 v -> np_all v = false.
Proof.
  unfold np_all. induction v as [| x v IH]; simpl; intros H.
  - contradiction.
  - destruct (Req_dec_T x 0) as [E | E]; [reflexivity |].
    destruct H as [H | H]; [congruence | simpl; auto].
Qed.

Lemma np_all_nonzero (v : list R) :
  Forall (fun x => x <> 0) v -> np_all v = true.
Proof.
  unfold np_all. induction 1 as [| x v Hx Hv IH]; simpl.
  - reflexivity.
  - destruct (Req_dec_T x 0); [contradiction | exact IH].
Qed.

Lemma Segment_init_zero (dexp : R -> Z) (fuel : nat) (v : list R) :
  In 0 v -> Segment.init dexp fuel None (Some v) = Some (Raise AttributeError).
Proof.
  intros H. unfold Segment.init. simpl. rewrite (np_all_zero v H). reflexivity.
Qed.

Lemma GridLine_init_zero (dexp : R -> Z) (fuel : nat) (v : list R)
      (lbl : option string) :
  In 0 v -> GridLine.init dexp fuel None (Some v) lbl
            = Some (Ok (empty_gridline lbl)).
Proof.
  intros H. unfold GridLine.init. simpl. rewrite (np_all_zero v H). reflexivity.
Qed.

(** C10, as amended.  An array that holds 0.0 makes the guard
    [numpy.all(vertices)] false, so the vertices branch is skipped.
    [Segment.__init__] then raises an attribute error.  [GridLine.__init__]
    raises nothing: it returns a gridline with no segment and 0 divisions,
    and the loop of [read] appends that gridline and goes on. *)
Theorem zero_vertex_skips_vertices_branch
        (dexp : R -> Z) (fuel : nat) (v : list R) :
  In 0 v ->
  np_all_opt (Some v) = false
  /\ Segment.init dexp fuel None (Some v) = Some (Raise AttributeError)
  /\ (forall lbl, GridLine.init dexp fuel None (Some v) lbl
                  = Some (Ok (empty_gridline lbl)))
  /\ (forall self index lbl rest,
         nth_error CartesianStructuredMesh.labels index = Some lbl ->
         CartesianStructuredMesh.read_gridlines dexp fuel self index (v :: rest)
         = CartesianStructuredMesh.read_gridlines dexp fuel
             (CartesianStructuredMesh.mk
                (CartesianStructuredMesh.gridlines self
                   ++ [empty_gridline (Some lbl)]))
             (S index) rest).
Proof.
  intros H. repeat split.
  - simpl. apply np_all_zero, H.
  - apply Segment_init_zero, H.
  - intros lbl. apply GridLine_init_zero, H.
  - intros self index lbl rest Hl. simpl. rewrite Hl.
    rewrite (GridLine_init_zero dexp fuel v (Some lbl) H). reflexivity.
Qed.

Lemma zero_vertex_skips_vertices_branch_witness :
  Segment.init unused_exponent 0 None (Some [0; 0.5; 1])
  = Some (Raise AttributeError).
Proof.
  apply (zero_vertex_skips_vertices_branch unused_exponent 0 [0; 0.5; 1]).
  simpl. left. reflexivity.
Defined.

(** C10 as stated fails: a gridline is built, with no error, from an array
    that holds 0.0, and [read] returns a mesh from a file whose coordinates
    hold 0.0. *)
Lemma gridline_from_zero_vertex_is_built :
  GridLine.init unused_exponent 0 None (Some [0; 0.5; 1]) (Some "x"%string)
  = Some (Ok (empty_gridline (Some "x"%string)))
  /\ CartesianStructuredMesh.read unused_exponent 0
       CartesianStructuredMesh.init
       (CartesianStructuredMesh.store (fun _ => None) "grid.txt"
                                      zero_based_file)
       "grid.txt"
     = Some (Ok (CartesianStructuredMesh.mk
                   [empty_gridline (Some "x"%string);
                    empty_gridline (Some "y"%string)])).
Proof.
  assert (Hz : In 0 [0; 0.5; 1]) by (simpl; auto).
  split.
  - apply GridLine_init_zero, Hz.
  - unfold CartesianStructuredMesh.read, CartesianStructuredMesh.store.
    simpl.
    rewrite !(GridLine_init_zero unused_exponent 0 _ _ Hz). reflexivity.
Qed.

(** ** Reading a grid file *)

Lemma rev_head_last (v : list R) :
  v <> [] -> exists l, rev v = last v 0 :: l.
Proof.
  intros H. destruct (exists_last H) as [l [a E]]. subst v.
  rewrite rev_app_distr, last_last. simpl. eauto.
Qed.

Lemma Segment_init_vertices (dexp : R -> Z) (fuel : nat) (v : list R) :
  Forall (fun x => x <> 0) v ->
  Segment.init dexp fuel None (Some v) = Some (Ok (segment_of_vertices v)).
Proof.
  intros H. unfold Segment.init. simpl. rewrite (np_all_nonzero v H).
  reflexivity.
Qed.

Lemma GridLine_init_vertices (dexp : R -> Z) (fuel : nat) (v : list R)
      (lbl : option string) :
  v <> [] -> Forall (fun x => x <> 0) v ->
  GridLine.init dexp fuel None (Some v) lbl
  = Some (Ok (gridline_of_vertices lbl v)).
Proof.
  intros Hne Hnz. unfold GridLine.init, np_all_opt.
  rewrite (np_all_nonzero v Hnz).
  unfold GridLine.create_from_vertices.
  destruct (rev_head_last v Hne) as [l Hl].
  destruct v as [| x v]; [contradiction |].
  rewrite Hl, (Segment_init_vertices dexp fuel _ Hnz). reflexivity.
Qed.

Lemma GridLine_init_empty_vertices (dexp : R -> Z) (fuel : nat)
      (lbl : option string) :
  GridLine.init dexp fuel None (Some []) lbl = Some (Raise IndexError).
Proof. reflexivity. Qed.

(** C9 as stated fails: the header of [short_file] does not match its
    data, and [read] reports nothing: it returns a mesh whose second
    gridline has the 3 vertices that are left, that is 2 divisions where
    the header announces 5. *)
Lemma read_accepts_mismatched_header :
  ~ header_matches short_file
  /\ CartesianStructuredMesh.read unused_exponent 0
       CartesianStructuredMesh.init
       (CartesianStructuredMesh.store (fun _ => None) "grid.txt" short_file)
       "grid.txt"
     = Some (Ok (CartesianStructuredMesh.mk
                   [gridline_of_vertices (Some "x"%string) [1; 2; 3];
                    gridline_of_vertices (Some "y"%string) [4; 5; 6]])).
Proof.
  split.
  - unfold header_matches. simpl. discriminate.
  - unfold CartesianStructuredMesh.read, CartesianStructuredMesh.store.
    simpl.
    rewrite (GridLine_init_vertices unused_exponent 0 [1; 2; 3]);
      [| discriminate | repeat constructor; lra].
    simpl.
    rewrite (GridLine_init_vertices unused_exponent 0 [4; 5; 6]);
      [| discriminate | repeat constructor; lra].
    reflexivity.
Qed.

(** ** Vertices of a segment *)

Lemma ln_3_over_ln_2 : 3 / 2 < ln 3 / ln 2 < 5 / 2.
Proof.
  assert (H2 : 0 < ln 2) by (rewrite <- ln_1; apply ln_increasing; lra).
  assert (H8 : ln (2 ^ 3) < ln (3 ^ 2)) by (apply ln_increasing; lra).
  assert (H9 : ln (3 ^ 2) < ln (2 ^ 5)) by (apply ln_increasing; lra).
  rewrite !ln_pow in H8, H9 by lra. simpl INR in H8, H9.
  split.
  - apply (Rmult_lt_reg_r (ln 2)); [exact H2 |].
    unfold Rdiv at 2. rewrite Rmult_assoc, Rinv_l by lra. lra.
  - apply (Rmult_lt_reg_r (ln 2)); [exact H2 |].
    unfold Rdiv at 1. rewrite Rmult_assoc, Rinv_l by lra. lra.
Qed.

Lemma int_round_ln_3_over_ln_2 : int_round (ln 3 / ln 2) = 2%Z.
Proof. apply int_round_eq. pose proof ln_3_over_ln_2. lra. Qed.

Lemma not_uniform_2 : ~ uniform 2.
Proof.
  unfold uniform. replace (2 - 1) with 1 by lra. rewrite Rabs_R1. lra.
Qed.

Lemma log_quotient_1_half_2 : Segment.log_quotient 1 0.5 2 = Ok (ln 3 / ln 2).
Proof.
  unfold Segment.log_quotient, py_div, math_log.
  destruct (Req_dec_T 0.5 0); [lra |]. simpl.
  replace (1 - 1 / 0.5 * (1 - 2)) with 3 by lra.
  destruct (Rlt_dec 0 3); [| lra]. simpl.
  destruct (Rlt_dec 0 2); [| lra]. simpl.
  destruct (Req_dec_T (ln 2) 0) as [E | E]; [| reflexivity].
  pose proof ln_3_over_ln_2 as H. rewrite E in H.
  unfold Rdiv in H. rewrite Rinv_0 in H. lra.
Qed.

Lemma strictly_increasing_tail (x : R) (l : list R) :
  strictly_increasing (x :: l) -> strictly_increasing l.
Proof. destruct l; simpl; tauto. Qed.

Lemma strictly_increasing_head (x : R) (l : list R) :
  strictly_increasing (x :: l) -> forall y, In y l -> x < y.
Proof.
  revert x. induction l as [| a l IH]; intros x H y Hy.
  - contradiction.
  - destruct H as [Hxa Hl]. destruct Hy as [Hy | Hy].
    + subst. exact Hxa.
    + apply Rlt_trans with a; [exact Hxa | apply IH; assumption].
Qed.

Lemma strictly_increasing_cons (x : R) (l : list R) :
  strictly_increasing l -> (forall y, In y l -> x < y) ->
  strictly_increasing (x :: l).
Proof.
  intros Hl Hx. destruct l as [| a l]; simpl; [exact I |].
  split; [apply Hx; left; reflexivity | exact Hl].
Qed.

Lemma strictly_increasing_snoc (l : list R) (x : R) :
  strictly_increasing l -> (forall y, In y l -> y < x) ->
  strictly_increasing (l ++ [x]).
Proof.
  induction l as [| a l IH]; intros Hl Hx.
  - exact I.
  - simpl app. apply strictly_increasing_cons.
    + apply IH; [eapply strictly_increasing_tail; eauto |].
      intros y Hy. apply Hx. right. exact Hy.
    + intros y Hy. apply in_app_or in Hy. destruct Hy as [Hy | [Hy | []]].
      * eapply strictly_increasing_head; eauto.
      * subst. apply Hx. left. reflexivity.
Qed.

Lemma strictly_increasing_mirror (f : R -> R) (l : list R) :
  (forall a b, a < b -> f b < f a) ->
  strictly_increasing l -> strictly_increasing (rev (map f l)).
Proof.
  intros Hf. induction l as [| a l IH]; intros Hl.
  - exact I.
  - simpl. apply strictly_increasing_snoc.
    + apply IH. eapply strictly_increasing_tail; eauto.
    + intros y Hy. apply in_rev, in_map_iff in Hy.
      destruct Hy as [b [Eb Hb]]. subst y. apply Hf.
      eapply strictly_increasing_head; eauto.
Qed.

Lemma cumprod_from_positive (l : list R) :
  Forall (fun x => 0 < x) l ->
  forall acc, 0 < acc -> Forall (fun x => 0 < x) (cumprod_from acc l).
Proof.
  induction 1 as [| x l Hx Hl IH]; intros acc Hacc; simpl.
  - constructor.
  - assert (0 < acc * x) by (apply Rmult_lt_0_compat; assumption).
    constructor; [assumption | apply IH; assumption].
Qed.

Lemma cumsum_from_above (l : list R) :
  Forall (fun x => 0 < x) l ->
  forall acc y, In y (cumsum_from acc l) -> acc < y.
Proof.
  induction 1 as [| x l Hx Hl IH]; intros acc y Hy; simpl in Hy.
  - contradiction.
  - destruct Hy as [Hy | Hy].
    + subst. lra.
    + apply IH in Hy. lra.
Qed.

Lemma cumsum_from_increasing (l : list R) :
  Forall (fun x => 0 < x) l ->
  forall acc, strictly_increasing (cumsum_from acc l).
Proof.
  induction 1 as [| x l Hx Hl IH]; intros acc; simpl cumsum_from.
  - exact I.
  - apply strictly_increasing_cons; [apply IH |].
    intros y Hy. eapply cumsum_from_above; eauto.
Qed.

Lemma stretched_widths_positive (w r : R) (k : nat) :
  0 < w -> 0 < r -> Forall (fun x => 0 < x) (np_cumprod (w :: repeat r k)).
Proof.
  intros Hw Hr. apply cumprod_from_positive; [| lra].
  constructor; [exact Hw |].
  apply Forall_forall. intros x Hx. apply repeat_spec in Hx. subst. exact Hr.
Qed.

Lemma get_vertices_stretched (s e w r : R) (reverse : bool) :
  ~ uniform r ->
  Segment.get_vertices (prepared s e w r) reverse
  = (x <- Segment.log_quotient (Rabs (e - s)) w r ;;
     widths <- fill_widths (int_round x) w r ;;
     let widths := np_cumprod widths in
     let self := Segment.set_aspect_ratio (prepared s e w r)
                   (last widths 0 / hd 0 widths) in
     if reverse then
       Ok (rev (e :: map (fun c => e - c) (np_cumsum widths)),
           Segment.set_stretch_ratio self (1 / r))
     else Ok (s :: map (fun c => s + c) (np_cumsum widths), self)).
Proof.
  intros H. unfold uniform in H. unfold Segment.get_vertices. simpl.
  destruct (Rlt_dec (Rabs (r - 1)) 1e-6); [contradiction |].
  destruct (Segment.log_quotient (Rabs (e - s)) w r); simpl; [| reflexivity].
  destruct (fill_widths (int_round a) w r); simpl; [| reflexivity].
  destruct reverse; reflexivity.
Qed.

Lemma fill_widths_shape (n : Z) (w r : R) (ws : list R) :
  fill_widths n w r = Ok ws -> ws = w :: repeat r (Z.to_nat (n - 1)).
Proof.
  unfold fill_widths. destruct (n <? 0)%Z; [discriminate |].
  destruct (n =? 0)%Z; [discriminate |]. intros H. injection H as H.
  symmetry. exact H.
Qed.

Lemma get_vertices_0_1_half_2 :
  Segment.get_vertices (prepared 0 1 0.5 2) false
  = Ok ([0; 0.5; 1.5], Segment.set_aspect_ratio (prepared 0 1 0.5 2) 2).
Proof.
  rewrite (get_vertices_stretched 0 1 0.5 2 false not_uniform_2).
  replace (Rabs (1 - 0)) with 1
    by (replace (1 - 0) with 1 by lra; symmetry; apply Rabs_R1).
  rewrite log_quotient_1_half_2. cbn [bind].
  rewrite int_round_ln_3_over_ln_2. simpl.
  f_equal. f_equal.
  - f_equal. f_equal; [lra |]. f_equal. lra.
  - unfold Segment.set_aspect_ratio, prepared. simpl. f_equal. f_equal. lra.
Qed.





(** ** Uniform segments *)

Ltac split_Rabs :=
  unfold Rabs in *;
  repeat match goal with
         | |- context [Rcase_abs ?x] => destruct (Rcase_abs x)
         | H : context [Rcase_abs ?x] |- _ => destruct (Rcase_abs x)
         end.

Lemma round_test_within (q : R) :
  ~ 1e-12 < Rabs (IZR (int_round q) - q) <-> within_of_integer 1e-12 q.
Proof.
  split.
  - intros H. exists (int_round q). rewrite Rabs_minus_sym. lra.
  - intros [k Hk] H.
    assert (E : int_round q = k) by (apply int_round_eq; split_Rabs; lra).
    rewrite E, Rabs_minus_sym in H. lra.
Qed.

Lemma arange_is_arithmetic (s w : R) (n : nat) :
  map (fun i => s + IZR i * w) (Zrange n) = arithmetic_sequence s w n.
Proof.
  unfold Zrange. revert s. induction n as [| n IH]; intros s.
  - reflexivity.
  - simpl. f_equal; [ring |].
    rewrite <- IH, <- seq_shift, !map_map. apply map_ext. intros i.
    rewrite Nat2Z.inj_succ, succ_IZR. ring.
Qed.

Lemma arithmetic_sequence_length (s w : R) (n : nat) :
  List.length (arithmetic_sequence s w n) = n.
Proof.
  revert s. induction n as [| n IH]; intros s; simpl; [| rewrite IH];
    reflexivity.
Qed.


Lemma get_vertices_uniform (s e w r : R) (reverse : bool) :
  s < e -> 0 < w -> uniform r ->
  Segment.get_vertices (prepared s e w r) reverse
  = if Rlt_dec 1e-12 (Rabs (IZR (int_round ((e - s) / w)) - (e - s) / w))
    then Raise SystemExit
    else Ok (np_arange s (e + w / 2) w,
             Segment.set_aspect_ratio (prepared s e w r) 1).
Proof.
  intros Hse Hw Hu. unfold uniform in Hu. unfold Segment.get_vertices.
  simpl. destruct (Rlt_dec (Rabs (r - 1)) 1e-6); [| contradiction].
  unfold py_div. destruct (Req_dec_T w 0); [lra |]. simpl.
  rewrite (Rabs_pos_eq (e - s)) by lra. reflexivity.
Qed.

Lemma uniform_count (s e w : R) :
  s < e -> 0 < w -> within_of_integer 1e-12 ((e - s) / w) ->
  Zceil ((e + w / 2 - s) / w) = (int_round ((e - s) / w) + 1)%Z
  /\ (0 <= int_round ((e - s) / w))%Z.
Proof.
  intros Hse Hw Hin. apply round_test_within in Hin.
  set (q := (e - s) / w) in *.
  assert (Hq : 0 < q) by (apply Rdiv_lt_0_compat; lra).
  assert (Hm : Rabs (IZR (int_round q) - q) <= 1e-12) by lra.
  split.
  - apply Zceil_eq. rewrite plus_IZR.
    replace ((e + w / 2 - s) / w) with (q + 1 / 2)
      by (unfold q; field; lra).
    split_Rabs; lra.
  - apply Z.lt_succ_r. apply lt_IZR. rewrite succ_IZR. split_Rabs; lra.
Qed.


Lemma uniform_1 : uniform 1.
Proof.
  unfold uniform. replace (1 - 1) with 0 by lra. rewrite Rabs_R0. lra.
Qed.


(** ** The coarse search of the stretch ratio *)

Lemma ln_zero_iff_one (r : R) : 0 < r -> (ln r = 0 <-> r = 1).
Proof.
  intros Hr. split.
  - intros H. apply ln_inv; [exact Hr | lra | rewrite ln_1; exact H].
  - intros ->. apply ln_1.
Qed.

(** The quotient that the code computes is the one of the
    specification, with the same exceptions. *)
Lemma log_quotient_as_specified (length width ratio : R) :
  Segment.log_quotient length width ratio
  = quotient_of_logarithms length width ratio.
Proof.
  unfold Segment.log_quotient, quotient_of_logarithms, py_div, math_log.
  destruct (Req_dec_T width 0); [reflexivity |]. cbn [bind].
  destruct (Rlt_dec 0 (1 - length / width * (1 - ratio))),
    (Rle_dec (1 - length / width * (1 - ratio)) 0);
    try lra; cbn [bind]; [| reflexivity].
  destruct (Rlt_dec 0 ratio), (Rle_dec ratio 0);
    try lra; cbn [bind]; [| reflexivity].
  destruct (Req_dec_T (ln ratio) 0) as [E | E],
    (Req_dec_T ratio 1) as [E1 | E1]; try reflexivity.
  - exfalso. apply E1. apply ln_zero_iff_one; assumption.
  - exfalso. apply E. apply ln_zero_iff_one; assumption.
Qed.














(** ** The refinement of the stretch ratio *)

Lemma segment_length_nonneg (self : Segment.t) (length : R) :
  Segment.segment_length self = Ok length -> 0 <= length.
Proof.
  unfold Segment.segment_length.
  destruct (Segment.end_ self); cbn [attr bind]; [| discriminate].
  destruct (Segment.start self); cbn [attr bind]; [| discriminate].
  intros H. injection H as H. subst. apply Rabs_pos.
Qed.

Lemma ln_nonneg (y : R) : 1 <= y -> 0 <= ln y.
Proof.
  intros [H | H].
  - left. rewrite <- ln_1. apply ln_increasing; lra.
  - subst. rewrite ln_1. lra.
Qed.

Lemma ln_nonpos (y : R) : 0 < y -> y <= 1 -> ln y <= 0.
Proof.
  intros H0 [H | H].
  - left. rewrite <- ln_1. apply ln_increasing; lra.
  - subst. rewrite ln_1. lra.
Qed.










(** ** Sorted distinct values *)

Lemma strictly_weakly (l : list R) :
  strictly_increasing l -> weakly_increasing l.
Proof.
  induction l as [| x l IH]; [trivial |].
  destruct l as [| y l]; [trivial |].
  intros [H1 H2]. split; [lra | apply IH, H2].
Qed.

Lemma weakly_increasing_tail (x : R) (l : list R) :
  weakly_increasing (x :: l) -> weakly_increasing l.
Proof. destruct l; simpl; tauto. Qed.

Lemma weakly_increasing_head (x : R) (l : list R) :
  weakly_increasing (x :: l) -> forall y, In y l -> x <= y.
Proof.
  revert x. induction l as [| a l IH]; intros x H y Hy.
  - contradiction.
  - destruct H as [Hxa Hl]. destruct Hy as [Hy | Hy].
    + subst. exact Hxa.
    + apply Rle_trans with a; [exact Hxa | apply IH; assumption].
Qed.

Lemma weakly_increasing_cons (x : R) (l : list R) :
  weakly_increasing l -> (forall y, In y l -> x <= y) ->
  weakly_increasing (x :: l).
Proof.
  intros Hl Hx. destruct l as [| a l]; simpl; [exact I |].
  split; [apply Hx; left; reflexivity | exact Hl].
Qed.

Lemma insert_sorted_In (x y : R) (l : list R) :
  In y (insert_sorted x l) <-> y = x \/ In y l.
Proof.
  induction l as [| a l IH]; simpl.
  - intuition.
  - destruct (Rle_dec x a); simpl; [intuition |].
    rewrite IH. intuition.
Qed.

Lemma insert_sorted_weakly (x : R) (l : list R) :
  weakly_increasing l -> weakly_increasing (insert_sorted x l).
Proof.
  induction l as [| a l IH]; intros Hl.
  - exact I.
  - cbn [insert_sorted]. destruct (Rle_dec x a) as [Hxa | Hxa].
    + split; assumption.
    + apply weakly_increasing_cons.
      * apply IH. eapply weakly_increasing_tail; eauto.
      * intros y Hy. apply insert_sorted_In in Hy. destruct Hy as [Hy | Hy].
        -- subst. lra.
        -- eapply weakly_increasing_head; eauto.
Qed.

Lemma np_sort_In (y : R) (l : list R) : In y (np_sort l) <-> In y l.
Proof.
  unfold np_sort. induction l as [| a l IH]; simpl; [tauto |].
  rewrite insert_sorted_In, IH. intuition.
Qed.

Lemma np_sort_weakly (l : list R) : weakly_increasing (np_sort l).
Proof.
  unfold np_sort. induction l as [| a l IH]; simpl; [exact I |].
  apply insert_sorted_weakly, IH.
Qed.

Lemma np_sort_sorted (l : list R) : weakly_increasing l -> np_sort l = l.
Proof.
  unfold np_sort. induction l as [| a l IH]; intros Hl; [reflexivity |].
  cbn [fold_right]. rewrite IH by (eapply weakly_increasing_tail; eauto).
  destruct l as [| b l]; [reflexivity |]. destruct Hl as [Hab _].
  cbn [insert_sorted]. destruct (Rle_dec a b); [reflexivity | contradiction].
Qed.

Lemma dedup_adjacent_cons2 (a b : R) (l : list R) :
  dedup_adjacent (a :: b :: l)
  = if Req_dec_T a b then dedup_adjacent (b :: l)
    else a :: dedup_adjacent (b :: l).
Proof. reflexivity. Qed.

Lemma dedup_adjacent_In (y : R) (l : list R) :
  In y (dedup_adjacent l) <-> In y l.
Proof.
  induction l as [| a l IH]; [simpl; tauto |].
  destruct l as [| b l]; [simpl; tauto |].
  rewrite dedup_adjacent_cons2. destruct (Req_dec_T a b) as [E | E].
  - rewrite IH. subst. simpl. tauto.
  - cbn [In] in *. rewrite IH. tauto.
Qed.

Lemma dedup_adjacent_strictly (l : list R) :
  weakly_increasing l -> strictly_increasing (dedup_adjacent l).
Proof.
  induction l as [| a l IH]; intros Hl; [exact I |].
  destruct l as [| b l]; [exact I |].
  rewrite dedup_adjacent_cons2. destruct Hl as [Hab Hl].
  destruct (Req_dec_T a b) as [E | E]; [apply IH, Hl |].
  apply strictly_increasing_cons; [apply IH, Hl |].
  intros y Hy. apply -> dedup_adjacent_In in Hy.
  assert (b <= y).
  { cbn [In] in Hy. destruct Hy as [Hy | Hy]; [subst; lra |].
    eapply weakly_increasing_head; eauto. }
  destruct Hab as [Hab | Hab]; [lra | contradiction].
Qed.

Lemma dedup_adjacent_distinct (l : list R) :
  strictly_increasing l -> dedup_adjacent l = l.
Proof.
  induction l as [| a l IH]; intros Hl; [reflexivity |].
  destruct l as [| b l]; [reflexivity |].
  rewrite dedup_adjacent_cons2. destruct Hl as [Hab Hl].
  destruct (Req_dec_T a b); [lra |]. rewrite IH by exact Hl. reflexivity.
Qed.

Lemma np_unique_strictly (l : list R) : strictly_increasing (np_unique l).
Proof. apply dedup_adjacent_strictly, np_sort_weakly. Qed.

Lemma np_unique_In (y : R) (l : list R) : In y (np_unique l) <-> In y l.
Proof. unfold np_unique. rewrite dedup_adjacent_In. apply np_sort_In. Qed.

Lemma strictly_increasing_NoDup (l : list R) :
  strictly_increasing l -> NoDup l.
Proof.
  induction l as [| a l IH]; intros Hl; constructor.
  - intros Hin. pose proof (strictly_increasing_head a l Hl a Hin). lra.
  - apply IH. eapply strictly_increasing_tail; eauto.
Qed.

Lemma dedup_chain_step (a : list R) (b : R) (l : list R) :
  a <> [] -> strictly_increasing a -> last a 0 = b ->
  dedup_adjacent (a ++ b :: l) = removelast a ++ dedup_adjacent (b :: l).
Proof.
  induction a as [| x a IH]; intros Hne Ha Hlast; [contradiction |].
  destruct a as [| y a].
  - simpl in Hlast. subst b. cbn [app removelast].
    rewrite dedup_adjacent_cons2.
    destruct (Req_dec_T x x); [reflexivity | contradiction].
  - destruct Ha as [Hxy Ha].
    change ((x :: y :: a) ++ b :: l) with (x :: y :: (a ++ b :: l)).
    rewrite dedup_adjacent_cons2. destruct (Req_dec_T x y); [lra |].
    change (y :: a ++ b :: l) with ((y :: a) ++ b :: l).
    rewrite IH; [reflexivity | discriminate | exact Ha | exact Hlast].
Qed.

Lemma weakly_chain (a : list R) (b : R) (l : list R) :
  a <> [] -> strictly_increasing a -> last a 0 = b ->
  weakly_increasing (b :: l) -> weakly_increasing (a ++ b :: l).
Proof.
  induction a as [| x a IH]; intros Hne Ha Hlast Hl; [contradiction |].
  destruct a as [| y a].
  - simpl in Hlast. subst b. split; [lra | exact Hl].
  - destruct Ha as [Hxy Ha].
    change ((x :: y :: a) ++ b :: l) with (x :: ((y :: a) ++ b :: l)).
    split; [lra |].
    apply IH; [discriminate | exact Ha | exact Hlast | exact Hl].
Qed.

Lemma chained_concat_weakly (arrays : list (list R)) :
  chained arrays -> weakly_increasing (concat arrays).
Proof.
  induction arrays as [| a rest IH]; intros H; [exact I |].
  destruct H as [Hne [Ha [Hnext Hrest]]]. specialize (IH Hrest).
  destruct rest as [| b rest].
  - simpl. rewrite app_nil_r. apply strictly_weakly, Ha.
  - destruct Hnext as [Hb Hlast]. destruct b as [| b0 b]; [contradiction |].
    simpl in Hlast.
    change (concat (a :: (b0 :: b) :: rest))
      with (a ++ b0 :: (b ++ concat rest)).
    apply weakly_chain; assumption.
Qed.

(** The sum of the numbers of divisions of the arrays. *)
Lemma chained_dedup_length (arrays : list (list R)) :
  chained arrays -> arrays <> [] ->
  (Z.of_nat (List.length (dedup_adjacent (concat arrays))) - 1
   = fold_right (fun a acc => Z.of_nat (List.length a) - 1 + acc) 0 arrays)%Z.
Proof.
  induction arrays as [| a rest IH]; intros H Hne; [contradiction |].
  destruct H as [Ha0 [Ha [Hnext Hrest]]].
  destruct rest as [| b rest].
  - simpl. rewrite app_nil_r, dedup_adjacent_distinct by exact Ha. lia.
  - destruct Hnext as [Hb Hlast]. destruct b as [| b0 b]; [contradiction |].
    simpl in Hlast.
    specialize (IH Hrest ltac:(discriminate)).
    change (concat (a :: (b0 :: b) :: rest))
      with (a ++ b0 :: (b ++ concat rest)).
    rewrite (dedup_chain_step a b0 _ Ha0 Ha Hlast), length_app.
    change (b0 :: b ++ concat rest) with (concat ((b0 :: b) :: rest)).
    cbn [fold_right] in IH |- *.
    assert (Hlen : List.length a = S (List.length (removelast a))).
    { destruct (exists_last Ha0) as [a' [z E]]. subst a.
      rewrite removelast_last, length_app. simpl. lia. }
    lia.
Qed.

Lemma chained_unique_length (arrays : list (list R)) :
  chained arrays -> arrays <> [] ->
  (Z.of_nat (List.length (np_unique (concat arrays))) - 1
   = fold_right (fun a acc => Z.of_nat (List.length a) - 1 + acc) 0 arrays)%Z.
Proof.
  intros H Hne. unfold np_unique.
  rewrite np_sort_sorted by (apply chained_concat_weakly, H).
  apply chained_dedup_length; assumption.
Qed.

(** ** Divisions of a gridline *)

Lemma Zsum_from (l : list Z) (acc : Z) :
  fold_left Z.add l acc = (acc + fold_left Z.add l 0)%Z.
Proof.
  revert acc. induction l as [| x l IH]; intros acc; simpl; [lia |].
  rewrite IH, (IH x). lia.
Qed.

Lemma Zsum_cons (x : Z) (l : list Z) : Zsum (x :: l) = (x + Zsum l)%Z.
Proof. unfold Zsum. simpl. apply Zsum_from. Qed.

Lemma mapM_attr_ok {A B : Type} (f : A -> option B) (l : list A)
      (vals : list B) :
  mapM (fun a => attr (f a)) l = Ok vals -> map f l = map Some vals.
Proof.
  revert vals. induction l as [| a l IH]; intros vals H; simpl in H.
  - injection H as H. subst. reflexivity.
  - destruct (f a) as [b |] eqn:Hb; cbn [attr bind] in H; [| discriminate].
    destruct (mapM (fun a => attr (f a)) l) as [bs | x]; cbn [bind] in H;
      [| discriminate].
    injection H as H. subst vals. simpl. rewrite Hb, (IH bs eq_refl).
    reflexivity.
Qed.

Lemma Segment_init_built (dexp : R -> Z) (fuel : nat)
      (data : option Segment.SegmentData) (verts : option (list R))
      (segment : Segment.t) :
  Segment.init dexp fuel data verts = Some (Ok segment) ->
  built_segment segment.
Proof.
  unfold Segment.init.
  match goal with
  | |- (fbind ?m _) = _ -> _ => destruct m as [[self | x] |]
  end; cbn [fbind]; try discriminate.
  destruct (Segment.vertices self) as [v |] eqn:Hv; cbn [attr fbind];
    [| discriminate].
  intros H. injection H as H. subst segment. exists v.
  split; [exact Hv | reflexivity].
Qed.

Lemma create_segments_built (dexp : R -> Z) (fuel : nat)
      (data : GridLine.Data) (nodes : list GridLine.SubDomain) :
  forall index segs,
    GridLine.create_segments dexp fuel data index nodes = Some (Ok segs) ->
    Forall built_segment segs.
Proof.
  induction nodes as [| node rest IH]; intros index segs H; simpl in H.
  - injection H as H. subst. constructor.
  - destruct (Segment.init dexp fuel _ None) as [[seg | x] |] eqn:Hseg;
      cbn [fbind] in H; try discriminate.
    destruct (GridLine.create_segments dexp fuel data (S index) rest)
      as [[more | x] |] eqn:Hmore; cbn [fbind] in H; try discriminate.
    injection H as H. subst segs. constructor.
    + eapply Segment_init_built; eauto.
    + eapply IH; eauto.
Qed.

Lemma GridLine_init_segments (dexp : R -> Z) (fuel : nat)
      (data : option GridLine.Data) (verts : option (list R))
      (lbl : option string) (g : GridLine.t) :
  GridLine.init dexp fuel data verts lbl = Some (Ok g) ->
  Forall built_segment (GridLine.segments g)
  /\ exists nbs,
       map Segment.nb_divisions (GridLine.segments g) = map Some nbs
       /\ GridLine.nb_divisions g = Some (Zsum nbs).
Proof.
  unfold GridLine.init.
  match goal with
  | |- (fbind ?m _) = _ -> _ => destruct m as [[self | x] |] eqn:Hself
  end; cbn [fbind]; try discriminate.
  destruct (mapM _ (GridLine.segments self)) as [nbs | x] eqn:Hnbs;
    cbn [fbind]; [| discriminate].
  intros H. injection H as H. subst g. cbn [GridLine.segments
                                             GridLine.nb_divisions].
  split; [| exists nbs; split; [apply mapM_attr_ok, Hnbs | reflexivity]].
  destruct data as [d |].
  - unfold GridLine.create_from_yaml_data in Hself.
    destruct (rev (GridLine.y_subDomains d)); [discriminate |].
    destruct (GridLine.create_segments dexp fuel d 0 _)
      as [[new | x] |] eqn:Hnew; cbn [fbind] in Hself; try discriminate.
    injection Hself as Hself. subst self. simpl.
    eapply create_segments_built; eauto.
  - destruct (np_all_opt verts);
      [| injection Hself as Hself; subst self; constructor].
    destruct verts as [v |];
      [| injection Hself as Hself; subst self; constructor].
    unfold GridLine.create_from_vertices in Hself.
    destruct v as [| first v]; [discriminate |].
    destruct (rev (first :: v)); [discriminate |].
    destruct (Segment.init dexp fuel None _) as [[seg | x] |] eqn:Hseg;
      cbn [fbind] in Hself; try discriminate.
    injection Hself as Hself. subst self. simpl.
    constructor; [| constructor]. eapply Segment_init_built; eauto.
Qed.

Lemma get_vertices_unique (g : GridLine.t) (precision : Z) (vs : list R) :
  GridLine.get_vertices g precision = Ok vs ->
  GridLine.segments g <> []
  /\ vs = np_unique (concat (rounded_arrays g precision)).
Proof.
  unfold GridLine.get_vertices, rounded_arrays.
  assert (Hmap : forall segs rounded,
             mapM (fun segment =>
                     v <- attr (Segment.vertices segment) ;;
                     Ok (map (np_round precision) v)) segs = Ok rounded ->
             rounded = map (fun segment =>
                              map (np_round precision)
                                  (GridLine.default [] (Segment.vertices
                                                          segment))) segs).
  { induction segs as [| seg segs IH]; intros rounded H; simpl in H.
    - injection H as H. subst. reflexivity.
    - destruct (Segment.vertices seg) as [v |] eqn:Hv; cbn [attr bind] in H;
        [| discriminate].
      destruct (mapM _ segs) as [rs | x]; cbn [bind] in H; [| discriminate].
      injection H as H. subst rounded. simpl. rewrite Hv, (IH rs eq_refl).
      reflexivity. }
  destruct (mapM _ (GridLine.segments g)) as [rounded | x] eqn:Hr;
    cbn [bind]; [| discriminate].
  apply Hmap in Hr. subst rounded.
  destruct (GridLine.segments g) as [| seg segs]; [discriminate |].
  cbn [map np_concatenate bind]. intros H. injection H as H. subst vs.
  split; [discriminate | reflexivity].
Qed.

Lemma built_segments_sum (precision : Z) (segs : list Segment.t) :
  Forall built_segment segs ->
  forall nbs,
    map Segment.nb_divisions segs = map Some nbs ->
    Zsum nbs
    = fold_right (fun a acc => Z.of_nat (List.length a) - 1 + acc)%Z 0%Z
        (map (fun segment =>
                map (np_round precision)
                    (GridLine.default [] (Segment.vertices segment))) segs).
Proof.
  induction 1 as [| seg segs [v [Hv Hnb]] Hsegs IH]; intros nbs H.
  - destruct nbs; [reflexivity | discriminate].
  - destruct nbs as [| nb nbs]; [discriminate |]. simpl in H.
    injection H as Hnb' Hrest. rewrite Hnb in Hnb'. injection Hnb' as Hnb'.
    rewrite Zsum_cons. cbn [map fold_right].
    rewrite Hv. cbn [GridLine.default]. rewrite length_map, <- (IH nbs Hrest).
    lia.
Qed.

(** C6, as amended.  The [nb_divisions] of a gridline is the sum of the
    division counts of its segments.  The array that [get_vertices]
    returns is increasing: no value occurs twice in it, and a rounded vertex
    of a segment, such as a boundary that two sub-domains share, occurs in
    it exactly once.  Its length minus one is [nb_divisions] when the
    rounded vertices of the segments follow one another: each array of
    them increasing and ending on the value the next one starts with. *)
Theorem gridline_divisions_and_vertices
        (dexp : R -> Z) (fuel : nat) (data : option GridLine.Data)
        (verts : option (list R)) (lbl : option string) (g : GridLine.t)
        (precision : Z) (vs : list R) :
  GridLine.init dexp fuel data verts lbl = Some (Ok g) ->
  GridLine.get_vertices g precision = Ok vs ->
  (exists nbs,
      map Segment.nb_divisions (GridLine.segments g) = map Some nbs
      /\ GridLine.nb_divisions g = Some (Zsum nbs))
  /\ strictly_increasing vs
  /\ (forall x, In x (concat (rounded_arrays g precision)) ->
                count_occ Req_dec_T vs x = 1%nat)
  /\ (chained (rounded_arrays g precision) ->
      GridLine.nb_divisions g = Some (Z.of_nat (List.length vs) - 1)%Z).
Proof.
  intros Hinit Hvs.
  destruct (GridLine_init_segments _ _ _ _ _ _ Hinit)
    as [Hbuilt [nbs [Hnbs Hnb]]].
  destruct (get_vertices_unique _ _ _ Hvs) as [Hne Hu].
  split; [exists nbs; split; assumption |].
  split; [subst vs; apply np_unique_strictly |].
  split.
  - intros x Hx.
    apply NoDup_count_occ'.
    + apply strictly_increasing_NoDup. subst vs. apply np_unique_strictly.
    + subst vs. apply np_unique_In. exact Hx.
  - intros Hch. rewrite Hnb. f_equal. subst vs.
    rewrite chained_unique_length.
    + unfold rounded_arrays. apply built_segments_sum; assumption.
    + exact Hch.
    + unfold rounded_arrays. destruct (GridLine.segments g);
        [contradiction | discriminate].
Qed.

(** ** Worked examples *)

Lemma np_round_exact (precision : Z) (x : R) :
  (exists k : Z, x * powerRZ 10 precision = IZR k) ->
  np_round precision x = x.
Proof.
  intros [k Hk]. unfold np_round. rewrite Hk, rint_IZR, <- Hk.
  field. apply powerRZ_NOR. lra.
Qed.

Lemma map_np_round_exact (precision : Z) (l : list R) :
  Forall (fun x => exists k : Z, x * powerRZ 10 precision = IZR k) l ->
  map (np_round precision) l = l.
Proof.
  induction 1 as [| x l Hx Hl IH]; simpl; [reflexivity |].
  rewrite (np_round_exact precision x Hx), IH. reflexivity.
Qed.

Lemma Segment_init_uniform (dexp : R -> Z) (fuel : nat) (s e w : R)
      (precision : Z) (reverse : bool) (m : nat) :
  s < e -> 0 < w -> (e - s) / w = INR m ->
  Segment.init dexp fuel
    (Some (Segment.mkSegmentData s e w 1 1 precision reverse)) None
  = Some (Ok (uniform_segment s e w m)).
Proof.
  intros Hse Hw Hm.
  unfold Segment.init, Segment.create_from_yaml_data,
    Segment.get_stretch_ratio.
  cbn [Segment.d_start Segment.d_end Segment.d_width Segment.d_stretchRatio
       Segment.d_aspectRatio Segment.d_precision Segment.d_reverse].
  pose proof uniform_1 as Hu. unfold uniform in Hu.
  destruct (Rlt_dec 1e-6 (Rabs (1 - 1))); [lra |].
  cbn [Segment.set_bounds Segment.set_width Segment.width attr fbind
       Segment.start Segment.end_ Segment.stretch_ratio Segment.aspect_ratio
       Segment.vertices Segment.nb_divisions Segment.new_segment
       Segment.set_stretch_ratio].
  change (Segment.set_stretch_ratio
            (Segment.set_width (Segment.set_bounds Segment.new_segment s e) w)
            1)
    with (prepared s e w 1).
  rewrite (get_vertices_uniform s e w 1 reverse Hse Hw uniform_1).
  assert (Hin : within_of_integer 1e-12 ((e - s) / w)).
  { exists (Z.of_nat m). rewrite Hm, INR_IZR_INZ.
    replace (IZR (Z.of_nat m) - IZR (Z.of_nat m)) with 0 by ring.
    rewrite Rabs_R0. lra. }
  destruct (Rlt_dec 1e-12 _) as [Hfar | _];
    [apply round_test_within in Hin; contradiction |].
  destruct (uniform_count s e w Hse Hw Hin) as [Hceil _].
  assert (Hr : int_round ((e - s) / w) = Z.of_nat m)
    by (rewrite Hm, INR_IZR_INZ; apply int_round_IZR).
  unfold np_arange. rewrite Hceil, Hr, arange_is_arithmetic.
  replace (Z.to_nat (Z.of_nat m + 1)) with (S m) by lia.
  cbn [fbind fst snd Segment.set_vertices Segment.set_aspect_ratio prepared
       Segment.start Segment.end_ Segment.width Segment.stretch_ratio
       Segment.aspect_ratio Segment.vertices Segment.nb_divisions attr
       Segment.set_nb_divisions].
  rewrite arithmetic_sequence_length. unfold uniform_segment.
  replace (Z.of_nat (S m) - 1)%Z with (Z.of_nat m) by lia. reflexivity.
Qed.

Lemma shared_boundary_gridline :
  GridLine.init one_decimal_exponent 0 (Some shared_boundary_data) None None
  = Some (Ok (GridLine.mk (Some "x"%string) (Some 0) (Some 1)
                [uniform_segment 0 0.5 0.25 2; uniform_segment 0.5 1 0.25 2]
                (Some 4%Z))).
Proof.
  unfold GridLine.init, GridLine.create_from_yaml_data, shared_boundary_data.
  cbn [GridLine.y_subDomains rev app GridLine.create_segments].
  change (GridLine.complete_node _ 0 (plain_subdomain 0.5 0.25))
    with (Segment.mkSegmentData 0 0.5 0.25 1 1 6 false).
  change (GridLine.complete_node _ 1 (plain_subdomain 1 0.25))
    with (Segment.mkSegmentData 0.5 1 0.25 1 1 6 false).
  rewrite (Segment_init_uniform one_decimal_exponent 0 0 0.5 0.25 6 false 2)
    by (simpl; lra).
  rewrite (Segment_init_uniform one_decimal_exponent 0 0.5 1 0.25 6 false 2)
    by (simpl; lra).
  reflexivity.
Qed.

Lemma shared_boundary_rounded :
  rounded_arrays shared_boundary_line 6
  = [arithmetic_sequence 0 0.25 3; arithmetic_sequence 0.5 0.25 3].
Proof.
  unfold rounded_arrays, shared_boundary_line, uniform_segment.
  cbn [GridLine.segments map Segment.vertices GridLine.default].
  rewrite !map_np_round_exact; [reflexivity | |].
  - simpl. repeat constructor.
    + exists 500000%Z. lra.
    + exists 750000%Z. lra.
    + exists 1000000%Z. lra.
  - simpl. repeat constructor.
    + exists 0%Z. lra.
    + exists 250000%Z. lra.
    + exists 500000%Z. lra.
Qed.

Lemma shared_boundary_chained :
  chained (rounded_arrays shared_boundary_line 6).
Proof.
  rewrite shared_boundary_rounded. simpl.
  repeat split; try discriminate; lra.
Qed.

Lemma gridline_divisions_and_vertices_witness :
  GridLine.nb_divisions shared_boundary_line
  = Some (Z.of_nat
            (List.length
               (np_unique (concat (rounded_arrays shared_boundary_line 6))))
          - 1)%Z.
Proof.
  apply (gridline_divisions_and_vertices one_decimal_exponent 0
           (Some shared_boundary_data) None None shared_boundary_line 6
           (np_unique (concat (rounded_arrays shared_boundary_line 6)))
           shared_boundary_gridline eq_refl).
  exact shared_boundary_chained.
Defined.

Ltac decide_reals :=
  repeat match goal with
         | |- context [Rle_dec ?a ?b] =>
             destruct (Rle_dec a b); try (exfalso; lra)
         | |- context [Req_dec_T ?a ?b] =>
             destruct (Req_dec_T a b); try (exfalso; lra)
         | |- context [Rlt_dec ?a ?b] =>
             destruct (Rlt_dec a b); try (exfalso; lra)
         end.

Lemma Segment_init_stretched_0_1_half_2 :
  Segment.init one_decimal_exponent 0
    (Some (Segment.mkSegmentData 0 1 0.5 2 1 1 false)) None
  = Some (Ok (Segment.mk (Some 0) (Some 1) (Some 0.5) (Some 2) (Some 2)
                         (Some [0; 0.5; 1.5]) (Some 2%Z))).
Proof.
  unfold Segment.init, Segment.create_from_yaml_data,
    Segment.get_stretch_ratio.
  cbn [Segment.d_start Segment.d_end Segment.d_width Segment.d_stretchRatio
       Segment.d_aspectRatio Segment.d_precision Segment.d_reverse].
  pose proof not_uniform_2 as Hn. unfold uniform in Hn.
  replace (2 - 1) with 1 in * by lra. rewrite Rabs_R1 in *.
  destruct (Rlt_dec 1e-6 1); [| lra].
  unfold Segment.compute_optimal_stretch_ratio, one_decimal_exponent.
  cbn [Segment.set_bounds Segment.set_width Segment.width attr fbind bind
       Segment.start Segment.end_ Segment.segment_length Z.abs while_loop
       Segment.precision_ratio Segment.f_ratio Z.ltb Z.compare
       Pos.compare Pos.compare_cont].
  change (Segment.set_stretch_ratio _ 2) with (prepared 0 1 0.5 2).
  rewrite get_vertices_0_1_half_2. reflexivity.
Qed.

Lemma stretched_then_uniform_gridline :
  GridLine.init one_decimal_exponent 0 (Some stretched_then_uniform_data)
                None None
  = Some (Ok stretched_then_uniform_line).
Proof.
  unfold GridLine.init, GridLine.create_from_yaml_data,
    stretched_then_uniform_data.
  cbn [GridLine.y_subDomains rev app GridLine.create_segments].
  change (GridLine.complete_node _ 0 _)
    with (Segment.mkSegmentData 0 1 0.5 2 1 1 false).
  change (GridLine.complete_node _ 1 _)
    with (Segment.mkSegmentData 1 2 1 1 1 6 false).
  rewrite Segment_init_stretched_0_1_half_2.
  rewrite (Segment_init_uniform one_decimal_exponent 0 1 2 1 6 false 1)
    by (simpl; lra).
  reflexivity.
Qed.

Lemma stretched_then_uniform_vertices :
  GridLine.get_vertices stretched_then_uniform_line 6
  = Ok [0; 0.5; 1; 1.5; 2].
Proof.
  unfold GridLine.get_vertices, stretched_then_uniform_line, uniform_segment.
  cbn [GridLine.segments mapM Segment.vertices attr bind].
  rewrite !map_np_round_exact.
  - cbn [np_concatenate bind concat app arithmetic_sequence].
    unfold np_unique, np_sort. cbn [fold_right insert_sorted].
    repeat (progress (cbn [insert_sorted]; decide_reals)).
    repeat (progress (rewrite ?dedup_adjacent_cons2; decide_reals)).
    cbn [dedup_adjacent]. do 5 (f_equal; try lra).
  - simpl. repeat constructor.
    + exists 1000000%Z. lra.
    + exists 2000000%Z. lra.
  - repeat constructor.
    + exists 0%Z. simpl. lra.
    + exists 500000%Z. simpl. lra.
    + exists 1500000%Z. simpl. lra.
Qed.

(** C6 as stated fails: the gridline of a sub-domain stretched forward
    from 0 to 1 (widths 0.5 and 1, so that its last vertex is 1.5) and of a
    uniform sub-domain from 1 to 2 has 2 + 1 = 3 divisions, and
    [get_vertices] returns 5 vertices, that is 4 intervals. *)
Lemma gridline_divisions_differ_from_vertices :
  GridLine.init one_decimal_exponent 0 (Some stretched_then_uniform_data)
                None None
  = Some (Ok stretched_then_uniform_line)
  /\ GridLine.nb_divisions stretched_then_uniform_line = Some 3%Z
  /\ GridLine.get_vertices stretched_then_uniform_line 6
     = Ok [0; 0.5; 1; 1.5; 2]
  /\ (Z.of_nat (List.length [0; 0.5; 1; 1.5; 2]%R) - 1 = 4)%Z.
Proof.
  split; [exact stretched_then_uniform_gridline |].
  split; [reflexivity |].
  split; [exact stretched_then_uniform_vertices | reflexivity].
Qed.

(** ** Writing a mesh and reading it back *)

Lemma unit_line_init (lbl : string) :
  GridLine.init one_decimal_exponent 0
    (Some (GridLine.mkData lbl 0 [plain_subdomain 1 0.5])) None None
  = Some (Ok (unit_line lbl)).
Proof.
  unfold GridLine.init, GridLine.create_from_yaml_data.
  cbn [GridLine.y_subDomains rev app GridLine.create_segments].
  change (GridLine.complete_node _ 0 _)
    with (Segment.mkSegmentData 0 1 0.5 1 1 6 false).
  rewrite (Segment_init_uniform one_decimal_exponent 0 0 1 0.5 6 false 2)
    by (simpl; lra).
  reflexivity.
Qed.

Lemma unit_line_vertices (lbl : string) :
  GridLine.get_vertices (unit_line lbl) 6 = Ok [0; 0.5; 1].
Proof.
  unfold GridLine.get_vertices, unit_line, uniform_segment.
  cbn [GridLine.segments mapM Segment.vertices attr bind].
  rewrite map_np_round_exact.
  - cbn [np_concatenate bind concat app arithmetic_sequence].
    unfold np_unique.
    rewrite np_sort_sorted by (simpl; lra).
    rewrite dedup_adjacent_distinct by (simpl; lra).
    f_equal. repeat (f_equal; try lra).
  - simpl. repeat constructor.
    + exists 0%Z. lra.
    + exists 500000%Z. lra.
    + exists 1000000%Z. lra.
Qed.

Lemma read_zero_based_file :
  CartesianStructuredMesh.read one_decimal_exponent 0
    CartesianStructuredMesh.init
    (CartesianStructuredMesh.store no_file "grid.txt" zero_based_file)
    "grid.txt"
  = Some (Ok unit_square_read_back).
Proof.
  assert (Hz : In 0 [0; 0.5; 1]) by (simpl; auto).
  unfold CartesianStructuredMesh.read, CartesianStructuredMesh.store.
  simpl.
  rewrite !(GridLine_init_zero one_decimal_exponent 0 _ _ Hz). reflexivity.
Qed.

(** C1 fails on the code.  The mesh of two directions from 0 to 1 in two
    divisions is written as the header [2 2] and the coordinates
    0, 0.5, 1, 0, 0.5, 1.  Reading that file back yields two gridlines with
    no segment: their division counts are 0, not 2, and asking them for
    their vertices raises, because the guard [numpy.all(vertices)] takes
    the coordinate 0.0 for the absence of vertices. *)
Theorem round_trip_drops_zero_based_gridlines :
  CartesianStructuredMesh.create one_decimal_exponent 0
    CartesianStructuredMesh.init unit_square_data
  = Some (Ok unit_square_mesh)
  /\ CartesianStructuredMesh.get_number_cells unit_square_mesh
     = Ok (4%Z, [2%Z; 2%Z])
  /\ CartesianStructuredMesh.write unit_square_mesh no_file "grid.txt" 6
     = Ok (CartesianStructuredMesh.store no_file "grid.txt" zero_based_file)
  /\ CartesianStructuredMesh.read one_decimal_exponent 0
       CartesianStructuredMesh.init
       (CartesianStructuredMesh.store no_file "grid.txt" zero_based_file)
       "grid.txt"
     = Some (Ok unit_square_read_back)
  /\ CartesianStructuredMesh.get_number_cells unit_square_read_back
     = Ok (0%Z, [0%Z; 0%Z])
  /\ (forall g,
         In g (CartesianStructuredMesh.gridlines unit_square_read_back) ->
         GridLine.get_vertices g 6 = Raise ValueError).
Proof.
  split.
  { unfold unit_square_data. cbn [CartesianStructuredMesh.create].
    rewrite !unit_line_init. reflexivity. }
  split; [reflexivity |].
  split.
  { unfold CartesianStructuredMesh.write, unit_square_mesh.
    cbn [CartesianStructuredMesh.get_number_cells
           CartesianStructuredMesh.gridlines mapM unit_line
           GridLine.nb_divisions attr bind snd].
    fold (unit_line "x") (unit_line "y").
    rewrite !unit_line_vertices. reflexivity. }
  split; [exact read_zero_based_file |].
  split; [reflexivity |].
  intros g [Hg | [Hg | []]]; subst g; reflexivity.
Qed.

(** ** Meshes that the operations build *)

Lemma counted_init : counted CartesianStructuredMesh.init.
Proof. exists []. reflexivity. Qed.

Lemma counted_append (m : CartesianStructuredMesh.t) (g : GridLine.t)
      (n : Z) :
  counted m -> GridLine.nb_divisions g = Some n ->
  counted (CartesianStructuredMesh.mk
             (CartesianStructuredMesh.gridlines m ++ [g])).
Proof.
  intros [per Hper] Hg. exists (per ++ [n]). simpl.
  rewrite !map_app, Hper. simpl. rewrite Hg. reflexivity.
Qed.

(** [create] and [read] keep every gridline counted, so that
    [get_number_cells] applies to the meshes they build. *)
Lemma create_counted (dexp : R -> Z) (fuel : nat)
      (data : list GridLine.Data) :
  forall m m',
    counted m ->
    CartesianStructuredMesh.create dexp fuel m data = Some (Ok m') ->
    counted m'.
Proof.
  induction data as [| node rest IH]; intros m m' Hm H; simpl in H.
  - injection H as H. subst. exact Hm.
  - destruct (GridLine.init dexp fuel (Some node) None None)
      as [[g | x] |] eqn:Hg; cbn [fbind] in H; try discriminate.
    destruct (GridLine_init_segments _ _ _ _ _ _ Hg) as [_ [nbs [_ Hnb]]].
    eapply IH; [| exact H]. eapply counted_append; eauto.
Qed.

Lemma read_counted (dexp : R -> Z) (fuel : nat)
      (fs : CartesianStructuredMesh.filesystem) (path : string) :
  forall m m',
    counted m ->
    CartesianStructuredMesh.read dexp fuel m fs path = Some (Ok m') ->
    counted m'.
Proof.
  intros m m' Hm. unfold CartesianStructuredMesh.read.
  destruct (fs path) as [infile |]; [| discriminate].
  destruct (CartesianStructuredMesh.split_loaded _ _) as [chunks | x];
    cbn [fbind]; [| discriminate].
  generalize 0%nat. revert m Hm.
  induction chunks as [| chunk rest IH]; intros m Hm index H; simpl in H.
  - injection H as H. subst. exact Hm.
  - destruct (nth_error CartesianStructuredMesh.labels index) as [lbl |];
      [| discriminate].
    destruct (GridLine.init dexp fuel None (Some chunk) (Some lbl))
      as [[g | x] |] eqn:Hg; cbn [fbind] in H; try discriminate.
    destruct (GridLine_init_segments _ _ _ _ _ _ Hg) as [_ [nbs [_ Hnb]]].
    eapply IH; [| exact H]. eapply counted_append; eauto.
Qed.

(** * Further properties of the code *)

(** ** Loop invariants *)

Lemma while_loop_invariant {S : Type} (Inv : S -> Prop) (cond : S -> bool)
      (body : S -> result S) :
  (forall s s', Inv s -> cond s = true -> body s = Ok s' -> Inv s') ->
  forall (fuel : nat) (s s' : S),
    Inv s -> while_loop fuel cond body s = Some (Ok s') ->
    Inv s' /\ cond s' = false.
Proof.
  intros Hstep. induction fuel as [| fuel IH]; intros s s' Hs H;
    cbn [while_loop] in H; destruct (cond s) eqn:Hc; try discriminate.
  - injection H as H. subst. auto.
  - destruct (body s) as [s1 | x] eqn:Hb; [| discriminate].
    apply (IH s1 s'); [eapply Hstep; eauto | exact H].
  - injection H as H. subst. auto.
Qed.

Lemma tenth_powerRZ_succ (k : Z) :
  powerRZ 0.1 (k + 1) = powerRZ 0.1 k * 0.1.
Proof.
  rewrite powerRZ_add by lra. simpl. lra.
Qed.

(** ** Bounds of the coarse search *)



(** ** Reach and end of the refinement *)

Lemma fine_body_level (length width : R) (s s' : Segment.FineState) :
  Segment.fine_body length width s = Ok s' ->
  Segment.precision_ratio s' = (Segment.precision_ratio s + 1)%Z
  /\ Rabs (Segment.f_ratio s' - Segment.f_ratio s)
     = powerRZ 0.1 (Segment.precision_ratio s + 1).
Proof.
  unfold Segment.fine_body.
  destruct (Segment.log_quotient_fine length width (Segment.f_ratio s));
    cbn [bind]; [| discriminate].
  destruct (Segment.geometric_sum _ _ _); cbn [bind]; [| discriminate].
  destruct (Segment.geometric_sum _ _ _); cbn [bind]; [| discriminate].
  assert (Ht : 0 < powerRZ 0.1 (Segment.precision_ratio s + 1))
    by (apply powerRZ_lt; lra).
  unfold py_pow.
  destruct (Rlt_dec _ _); intros H; injection H as H; subst s';
    cbn [Segment.precision_ratio Segment.f_ratio]; (split; [reflexivity |]).
  - rewrite Rabs_pos_eq; lra.
  - rewrite Rabs_left; lra.
Qed.

Lemma fine_loop_ends (length width : R) (precision : Z) (n : nat) :
  forall (fuel : nat) (s : Segment.FineState),
    n = Z.to_nat (precision - Segment.precision_ratio s) ->
    (n <= fuel)%nat ->
    while_loop fuel
      (fun s => (Segment.precision_ratio s <? precision)%Z)
      (Segment.fine_body length width) s
    <> None.
Proof.
  induction n as [| n IH]; intros fuel s Hn Hfuel.
  - assert (Hc : (Segment.precision_ratio s <? precision)%Z = false)
      by (apply Z.ltb_ge; lia).
    destruct fuel; simpl; rewrite Hc; discriminate.
  - assert (Hc : (Segment.precision_ratio s <? precision)%Z = true)
      by (apply Z.ltb_lt; lia).
    destruct fuel as [| fuel]; [lia |].
    cbn [while_loop]. rewrite Hc.
    destruct (Segment.fine_body length width s) as [s' | x] eqn:Hb;
      [| discriminate].
    apply fine_body_level in Hb. destruct Hb as [Hl _].
    apply IH; lia.
Qed.

(** X2. For every width, [compute_optimal_stretch_ratio] ends within
    [precision - precision_ratio] passes.  The ratio it returns is the
    given one when that ratio has [precision] digits or more, and is
    otherwise within [(0.1^precision_ratio - 0.1^precision)/9] of it: the
    refinement only touches the digits beyond those given. *)
Theorem refinement_stays_close
        (decimal_exponent : R -> Z) (fuel : nat) (self : Segment.t)
        (width ratio : R) (precision : Z) :
  (Z.to_nat (precision - Z.abs (decimal_exponent ratio)) <= fuel)%nat ->
  Segment.compute_optimal_stretch_ratio decimal_exponent fuel self width
                                        ratio precision <> None
  /\ (forall refined,
         Segment.compute_optimal_stretch_ratio decimal_exponent fuel self
                                               width ratio precision
         = Some (Ok refined) ->
         ((precision <= Z.abs (decimal_exponent ratio))%Z ->
          refined = ratio)
         /\ ((Z.abs (decimal_exponent ratio) <= precision)%Z ->
             Rabs (refined - ratio)
             <= (powerRZ 0.1 (Z.abs (decimal_exponent ratio))
                 - powerRZ 0.1 precision) / 9)).
Proof.
  intros Hfuel. unfold Segment.compute_optimal_stretch_ratio.
  set (pr0 := Z.abs (decimal_exponent ratio)) in *.
  destruct (Segment.segment_length self) as [length | x]; cbn [fbind];
    [| split; [discriminate | intros refined H; discriminate]].
  pose proof (fine_loop_ends length width precision _ fuel
                (Segment.mkFine ratio pr0) eq_refl Hfuel) as Hends.
  destruct (while_loop fuel _ _ _) as [[s | x] |] eqn:Hloop; cbn [fbind];
    [| split; [discriminate | intros refined H; discriminate]
     | contradiction].
  split; [discriminate |].
  intros refined H. injection H as H. subst refined.
  set (Inv := fun s : Segment.FineState =>
                (pr0 <= Segment.precision_ratio s)%Z
                /\ (Segment.precision_ratio s <= Z.max pr0 precision)%Z
                /\ Rabs (Segment.f_ratio s - ratio)
                   <= (powerRZ 0.1 pr0
                       - powerRZ 0.1 (Segment.precision_ratio s)) / 9).
  assert (Hstep : forall s0 s',
             Inv s0 ->
             (Segment.precision_ratio s0 <? precision)%Z = true ->
             Segment.fine_body length width s0 = Ok s' -> Inv s').
  { intros s0 s' [Hlo [Hhi Hb]] Hc Hbody. apply Z.ltb_lt in Hc.
    apply fine_body_level in Hbody. destruct Hbody as [Hl Hd].
    unfold Inv. rewrite Hl. split; [lia |]. split; [lia |].
    rewrite tenth_powerRZ_succ in *.
    assert (Ht : 0 < powerRZ 0.1 (Segment.precision_ratio s0))
      by (apply powerRZ_lt; lra).
    replace (Segment.f_ratio s' - ratio)
      with ((Segment.f_ratio s' - Segment.f_ratio s0)
            + (Segment.f_ratio s0 - ratio)) by ring.
    eapply Rle_trans; [apply Rabs_triang |]. rewrite Hd. lra. }
  assert (Hinit : Inv (Segment.mkFine ratio pr0)).
  { unfold Inv. cbn [Segment.precision_ratio Segment.f_ratio].
    split; [lia |]. split; [lia |].
    replace (ratio - ratio) with 0 by ring. rewrite Rabs_R0. lra. }
  destruct (while_loop_invariant Inv
              (fun s => (Segment.precision_ratio s <? precision)%Z)
              (Segment.fine_body length width)
              Hstep fuel (Segment.mkFine ratio pr0) s Hinit Hloop)
    as [[Hlo [Hhi Hb]] Hc].
  apply Z.ltb_ge in Hc. split.
  - intros Hp.
    assert (E : Segment.precision_ratio s = pr0) by lia.
    rewrite E in Hb.
    replace ((powerRZ 0.1 pr0 - powerRZ 0.1 pr0) / 9) with 0 in Hb by lra.
    pose proof (Rabs_pos (Segment.f_ratio s - ratio)).
    assert (E0 : Rabs (Segment.f_ratio s - ratio) = 0) by lra.
    destruct (Req_dec_T (Segment.f_ratio s - ratio) 0) as [Hz | Hz];
      [lra |].
    apply Rabs_no_R0 in Hz. contradiction.
  - intros Hp.
    assert (E : Segment.precision_ratio s = precision) by lia.
    rewrite E in Hb. exact Hb.
Qed.

Lemma refinement_stays_close_witness :
  Segment.compute_optimal_stretch_ratio one_decimal_exponent 5
    (with_bounds 0 1 0.5) 0.5 2 6 <> None.
Proof.
  apply (refinement_stays_close one_decimal_exponent 5
           (with_bounds 0 1 0.5) 0.5 2 6).
  simpl. lia.
Defined.

(** ** Geometry of a stretched segment *)

Lemma geometric_cumsum (r : R) (k : nat) :
  r <> 1 ->
  forall c acc,
    cumsum_from acc (cumprod_from c (repeat r k))
    = map (fun j => acc + c * r * (1 - r ^ S j) / (1 - r)) (seq 0 k).
Proof.
  intros Hr. induction k as [| k IH]; intros c acc; [reflexivity |].
  cbn [repeat cumprod_from cumsum_from seq map]. f_equal.
  - simpl. field. lra.
  - rewrite IH, <- seq_shift, map_map. apply map_ext. intros j.
    simpl. field. lra.
Qed.

Lemma geometric_cumprod_last (r : R) (k : nat) (c : R) :
  last (c :: cumprod_from c (repeat r k)) 0 = c * r ^ k.
Proof.
  revert c. induction k as [| k IH]; intros c.
  - simpl. ring.
  - cbn [repeat cumprod_from].
    change (last (c :: c * r :: cumprod_from (c * r) (repeat r k)) 0)
      with (last (c * r :: cumprod_from (c * r) (repeat r k)) 0).
    rewrite IH. simpl. ring.
Qed.

Lemma stretched_vertices_closed_form (s w r : R) (n : nat) :
  r <> 1 ->
  s :: map (fun c => s + c) (np_cumsum (np_cumprod (w :: repeat r n)))
  = map (fun i => s + geometric_S w r (Z.of_nat i)) (seq 0 (S (S n))).
Proof.
  intros Hr. unfold np_cumsum, np_cumprod, geometric_S.
  cbn [cumprod_from cumsum_from seq map]. f_equal; [| f_equal].
  - simpl. field. lra.
  - simpl. field. lra.
  - rewrite geometric_cumsum by exact Hr.
    rewrite <- seq_shift, <- seq_shift, !map_map. apply map_ext. intros j.
    rewrite <- pow_powerRZ. simpl. field. lra.
Qed.

Lemma strictly_increasing_map (f : R -> R) (l : list R) :
  (forall a b, a < b -> f a < f b) ->
  strictly_increasing l -> strictly_increasing (map f l).
Proof.
  intros Hf. induction l as [| a l IH]; intros Hl; [exact I |].
  destruct l as [| b l]; [exact I |]. destruct Hl as [Hab Hl].
  split; [apply Hf, Hab | apply IH, Hl].
Qed.

Lemma log_quotient_ok (length width ratio x : R) :
  Segment.log_quotient length width ratio = Ok x ->
  width <> 0 /\ 0 < ratio /\ ratio <> 1.
Proof.
  unfold Segment.log_quotient, py_div, math_log.
  destruct (Req_dec_T width 0) as [| Hw]; [discriminate |]. cbn [bind].
  destruct (Rlt_dec 0 (1 - length / width * (1 - ratio))); [| discriminate].
  cbn [bind]. destruct (Rlt_dec 0 ratio) as [Hr |]; [| discriminate].
  cbn [bind]. destruct (Req_dec_T (ln ratio) 0) as [| Hb]; [discriminate |].
  intros _. split; [exact Hw |]. split; [exact Hr |].
  intros E. apply Hb. rewrite E. apply ln_1.
Qed.

(** X3. A stretched segment built forward has [n = round(log quotient)]
    divisions, with [n >= 1]; its vertex of rank [i] is [start] plus the
    geometric sum [width*(1-ratio^i)/(1-ratio)] that the refinement of the
    ratio compares with the length; its [aspect_ratio] is
    [ratio^(n-1)]; and its vertices increase when the width is
    positive. *)
Theorem stretched_vertices_are_geometric
        (s e w r : R) (vs : list R) (self : Segment.t) :
  ~ uniform r ->
  Segment.get_vertices (prepared s e w r) false = Ok (vs, self) ->
  exists (x : R) (n : nat),
    Segment.log_quotient (Rabs (e - s)) w r = Ok x
    /\ int_round x = Z.of_nat (S n)
    /\ vs = map (fun i => s + geometric_S w r (Z.of_nat i))
                (seq 0 (S (S n)))
    /\ Segment.aspect_ratio self = Some (r ^ n)
    /\ (0 < w -> strictly_increasing vs).
Proof.
  intros Hr H. rewrite (get_vertices_stretched s e w r false Hr) in H.
  destruct (Segment.log_quotient (Rabs (e - s)) w r) as [x | x0] eqn:Hx;
    cbn [bind] in H; [| discriminate].
  destruct (log_quotient_ok _ _ _ _ Hx) as [Hw [Hr0 Hr1]].
  destruct (fill_widths (int_round x) w r) as [ws | x0] eqn:Hws;
    cbn [bind] in H; [| discriminate].
  assert (Hn : (0 < int_round x)%Z).
  { unfold fill_widths in Hws.
    destruct (int_round x <? 0)%Z eqn:H1; [discriminate |].
    destruct (int_round x =? 0)%Z eqn:H2; [discriminate |]. lia. }
  apply fill_widths_shape in Hws. subst ws.
  set (n := Z.to_nat (int_round x - 1)) in *.
  remember (np_cumprod (w :: repeat r n)) as widths eqn:Hwidths.
  injection H as Hvs Hself. subst widths. exists x, n.
  split; [reflexivity |]. split; [lia |]. split; [| split].
  - rewrite <- Hvs. apply stretched_vertices_closed_form. exact Hr1.
  - assert (Ha : last (np_cumprod (w :: repeat r n)) 0
                 / hd 0 (np_cumprod (w :: repeat r n)) = r ^ n).
    { change (np_cumprod (w :: repeat r n))
        with (1 * w :: cumprod_from (1 * w) (repeat r n)).
      rewrite geometric_cumprod_last. cbn [hd]. field. exact Hw. }
    rewrite <- Hself. unfold Segment.set_aspect_ratio, prepared.
    cbn [Segment.aspect_ratio]. f_equal. exact Ha.
  - intros Hw0. rewrite <- Hvs.
    pose proof (stretched_widths_positive w r n Hw0 Hr0) as Hpos.
    apply strictly_increasing_cons.
    + apply strictly_increasing_map; [intros; lra |].
      apply cumsum_from_increasing. exact Hpos.
    + intros y Hy. apply in_map_iff in Hy. destruct Hy as [c [Ec Hc]].
      subst y. apply (cumsum_from_above _ Hpos) in Hc. lra.
Qed.

Lemma stretched_vertices_are_geometric_witness :
  exists (x : R) (n : nat),
    Segment.log_quotient (Rabs (1 - 0)) 0.5 2 = Ok x
    /\ int_round x = Z.of_nat (S n)
    /\ [0; 0.5; 1.5]
       = map (fun i => 0 + geometric_S 0.5 2 (Z.of_nat i))
             (seq 0 (S (S n)))
    /\ Segment.aspect_ratio
         (Segment.set_aspect_ratio (prepared 0 1 0.5 2) 2)
       = Some (2 ^ n)
    /\ (0 < 0.5 -> strictly_increasing [0; 0.5; 1.5]).
Proof.
  apply (stretched_vertices_are_geometric 0 1 0.5 2 [0; 0.5; 1.5]
           (Segment.set_aspect_ratio (prepared 0 1 0.5 2) 2)
           not_uniform_2 get_vertices_0_1_half_2).
Defined.

(** ** Segments built backward *)

Lemma log_quotient_defined (length width ratio : R) :
  width <> 0 -> 0 < 1 - length / width * (1 - ratio) -> 0 < ratio ->
  ratio <> 1 ->
  Segment.log_quotient length width ratio
  = Ok (ln (1 - length / width * (1 - ratio)) / ln ratio).
Proof.
  intros Hw Ha Hr Hr1. rewrite log_quotient_as_specified.
  unfold quotient_of_logarithms.
  destruct (Req_dec_T width 0); [contradiction |].
  destruct (Rle_dec (1 - length / width * (1 - ratio)) 0); [lra |].
  destruct (Rle_dec ratio 0); [lra |].
  destruct (Req_dec_T ratio 1); [contradiction | reflexivity].
Qed.

Lemma fill_widths_succ (n : nat) (w r : R) :
  fill_widths (Z.of_nat (S n)) w r = Ok (w :: repeat r n).
Proof.
  unfold fill_widths.
  replace (Z.of_nat (S n) <? 0)%Z with false by (symmetry; apply Z.ltb_ge; lia).
  replace (Z.of_nat (S n) =? 0)%Z with false
    by (symmetry; apply Z.eqb_neq; lia).
  replace (Z.to_nat (Z.of_nat (S n) - 1)) with n by lia. reflexivity.
Qed.

Lemma reversed_vertices_closed_form (e w r : R) (n : nat) :
  r <> 1 ->
  e :: map (fun c => e - c) (np_cumsum (np_cumprod (w :: repeat r n)))
  = map (fun i => e - geometric_S w r (Z.of_nat i)) (seq 0 (S (S n))).
Proof.
  intros Hr.
  pose proof (stretched_vertices_closed_form 0 w r n Hr) as H.
  apply (f_equal (map (fun v => e - v))) in H.
  rewrite map_map in H. cbn [map] in H. rewrite map_map in H.
  replace (e - 0) with e in H by lra.
  etransitivity; [| etransitivity; [exact H |]].
  - f_equal. apply map_ext. intros c. lra.
  - apply map_ext. intros i. lra.
Qed.

Lemma reversed_vertices_increasing (e w r : R) (n : nat) :
  0 < w -> 0 < r ->
  strictly_increasing
    (rev (e :: map (fun c => e - c)
                   (np_cumsum (np_cumprod (w :: repeat r n))))).
Proof.
  intros Hw Hr.
  pose proof (stretched_widths_positive w r n Hw Hr) as Hpos.
  cbn [rev]. apply strictly_increasing_snoc.
  - apply strictly_increasing_mirror; [intros; lra |].
    apply cumsum_from_increasing. exact Hpos.
  - intros y Hy. apply in_rev, in_map_iff in Hy.
    destruct Hy as [c [Ec Hc]]. subst y.
    apply (cumsum_from_above _ Hpos) in Hc. lra.
Qed.

(** C8. For a stretched segment, the call with [reverse] returns the
    mirror image, in ascending order, of what the call without [reverse]
    returns (it fails when that call fails), and it stores [1/ratio] as the
    stretch ratio.  With a positive width and ratio, when the logarithm is
    defined and the number of divisions rounds to [n >= 1], both calls
    return: the forward one the vertices [start + S(width, ratio, i)], the
    reversed one the vertices [end - S(width, ratio, i)] put in ascending
    order, which are [end] and [end] minus the cumulative sums of the widths,
    order-reversed; the forward call keeps [ratio], the reversed one stores
    [1/ratio]. *)
Theorem reversed_segment_is_mirror (s e w r : R) :
  ~ uniform r ->
  Segment.get_vertices (prepared s e w r) true
  = mirror_outcome s e r (Segment.get_vertices (prepared s e w r) false)
  /\ (forall n : nat,
         0 < w -> 0 < r ->
         0 < 1 - Rabs (e - s) / w * (1 - r) ->
         int_round (ln (1 - Rabs (e - s) / w * (1 - r)) / ln r)
         = Z.of_nat (S n) ->
         exists self_forward self_reversed,
           Segment.get_vertices (prepared s e w r) false
           = Ok (map (fun i => s + geometric_S w r (Z.of_nat i))
                     (seq 0 (S (S n))),
                 self_forward)
           /\ Segment.get_vertices (prepared s e w r) true
              = Ok (rev (map (fun i => e - geometric_S w r (Z.of_nat i))
                             (seq 0 (S (S n)))),
                    self_reversed)
           /\ Segment.stretch_ratio self_forward = Some r
           /\ Segment.stretch_ratio self_reversed = Some (1 / r)
           /\ rev (map (fun i => e - geometric_S w r (Z.of_nat i))
                       (seq 0 (S (S n))))
              = rev (e :: map (fun c => e - c)
                              (np_cumsum (np_cumprod (w :: repeat r n))))
           /\ strictly_increasing
                (rev (map (fun i => e - geometric_S w r (Z.of_nat i))
                          (seq 0 (S (S n)))))).
Proof.
  intros Hu. split.
  - rewrite !(get_vertices_stretched s e w r _ Hu).
    destruct (Segment.log_quotient (Rabs (e - s)) w r); cbn [bind];
      [| reflexivity].
    destruct (fill_widths (int_round a) w r) as [ws |]; cbn [bind];
      [| reflexivity].
    unfold mirror_outcome, mirror.
    assert (E : e :: map (fun c => e - c) (np_cumsum (np_cumprod ws))
                = map (fun v => s + e - v)
                      (s :: map (fun c => s + c) (np_cumsum (np_cumprod ws)))).
    { simpl. f_equal; [ring |].
      rewrite map_map. apply map_ext. intros c. ring. }
    rewrite E. reflexivity.
  - intros n Hw Hr Ha Hn.
    assert (Hr1 : r <> 1).
    { intros ->. apply Hu. unfold uniform.
      replace (1 - 1) with 0 by lra. rewrite Rabs_R0. lra. }
    rewrite !(get_vertices_stretched s e w r _ Hu).
    rewrite (log_quotient_defined (Rabs (e - s)) w r) by (try assumption; lra).
    cbn [bind]. rewrite Hn, fill_widths_succ. cbn [bind].
    rewrite (stretched_vertices_closed_form s w r n Hr1).
    rewrite (reversed_vertices_closed_form e w r n Hr1).
    eexists. eexists.
    split; [reflexivity |]. split; [reflexivity |].
    split; [reflexivity |]. split; [reflexivity |].
    rewrite <- (reversed_vertices_closed_form e w r n Hr1).
    split; [reflexivity |].
    apply reversed_vertices_increasing; assumption.
Qed.

Lemma reversed_segment_is_mirror_witness :
  exists self_forward self_reversed,
    Segment.get_vertices (prepared 0 1 0.5 2) false
    = Ok ([0; 0.5; 1.5], self_forward)
    /\ Segment.get_vertices (prepared 0 1 0.5 2) true
       = Ok ([-0.5; 0.5; 1], self_reversed)
    /\ Segment.stretch_ratio self_forward = Some 2
    /\ Segment.stretch_ratio self_reversed = Some (1 / 2).
Proof.
  assert (Hlen : Rabs (1 - 0) = 1)
    by (replace (1 - 0) with 1 by lra; apply Rabs_R1).
  destruct (proj2 (reversed_segment_is_mirror 0 1 0.5 2 not_uniform_2) 1%nat)
    as (sf & sr & Hf & Hr & Hsf & Hsr & _).
  - lra.
  - lra.
  - rewrite Hlen. lra.
  - rewrite Hlen. replace (1 - 1 / 0.5 * (1 - 2)) with 3 by lra.
    exact int_round_ln_3_over_ln_2.
  - exists sf, sr. rewrite Hf, Hr.
    split; [| split; [| split; assumption]].
    + f_equal. f_equal. unfold geometric_S. simpl.
      f_equal; [lra |]. f_equal; [lra |]. f_equal. lra.
    + f_equal. f_equal. unfold geometric_S. simpl.
      f_equal; [lra |]. f_equal; [lra |]. f_equal. lra.
Defined.

(** ** Bounds given in the wrong order *)

Lemma Zceil_nonpos (x : R) : x <= 0 -> (Zceil x <= 0)%Z.
Proof.
  intros Hx. pose proof (Zceil_bounds x) as [H1 _].
  apply Z.lt_succ_r. apply lt_IZR. rewrite succ_IZR. lra.
Qed.

Lemma get_vertices_reversed_bounds (s e w r : R) (reverse : bool) :
  e < s -> 0 < w -> w / 2 <= s - e -> uniform r ->
  within_of_integer 1e-12 ((s - e) / w) ->
  Segment.get_vertices (prepared s e w r) reverse
  = Ok ([], Segment.set_aspect_ratio (prepared s e w r) 1).
Proof.
  intros Hes Hw Hgap Hu Hin. unfold uniform in Hu.
  unfold Segment.get_vertices. simpl.
  destruct (Rlt_dec (Rabs (r - 1)) 1e-6); [| contradiction].
  unfold py_div. destruct (Req_dec_T w 0); [lra |]. simpl.
  rewrite (Rabs_left (e - s)) by lra.
  replace (- (e - s)) with (s - e) by ring.
  apply round_test_within in Hin.
  destruct (Rlt_dec 1e-12 _); [contradiction |].
  unfold np_arange.
  assert (Hc : (Zceil ((e + w / 2 - s) / w) <= 0)%Z).
  { apply Zceil_nonpos.
    replace ((e + w / 2 - s) / w) with ((e + w / 2 - s) * / w) by reflexivity.
    assert (0 < / w) by (apply Rinv_0_lt_compat; lra). nra. }
  replace (Z.to_nat (Zceil ((e + w / 2 - s) / w))) with 0%nat by lia.
  reflexivity.
Qed.

(** X4. A uniform sub-domain whose end is below its start is not
    refused: its length is taken in absolute value, so the check of the
    width passes, and the segment comes out with no vertex at all and
    [-1] divisions. *)
Theorem reversed_bounds_give_empty_segment
        (dexp : R -> Z) (fuel : nat) (s e w : R) (precision : Z)
        (reverse : bool) :
  e < s -> 0 < w -> w / 2 <= s - e ->
  within_of_integer 1e-12 ((s - e) / w) ->
  Segment.init dexp fuel
    (Some (Segment.mkSegmentData s e w 1 1 precision reverse)) None
  = Some (Ok (Segment.mk (Some s) (Some e) (Some w) (Some 1) (Some 1)
                         (Some []) (Some (-1)%Z))).
Proof.
  intros Hes Hw Hgap Hin.
  unfold Segment.init, Segment.create_from_yaml_data,
    Segment.get_stretch_ratio.
  cbn [Segment.d_start Segment.d_end Segment.d_width Segment.d_stretchRatio
       Segment.d_aspectRatio Segment.d_precision Segment.d_reverse].
  pose proof uniform_1 as Hu. unfold uniform in Hu.
  destruct (Rlt_dec 1e-6 (Rabs (1 - 1))); [lra |].
  cbn [Segment.set_bounds Segment.set_width Segment.width attr fbind
       Segment.start Segment.end_ Segment.stretch_ratio Segment.aspect_ratio
       Segment.vertices Segment.nb_divisions Segment.new_segment
       Segment.set_stretch_ratio].
  change (Segment.set_stretch_ratio
            (Segment.set_width (Segment.set_bounds Segment.new_segment s e) w)
            1)
    with (prepared s e w 1).
  rewrite (get_vertices_reversed_bounds s e w 1 reverse Hes Hw Hgap
                                        uniform_1 Hin).
  reflexivity.
Qed.

Lemma reversed_bounds_give_empty_segment_witness :
  Segment.init one_decimal_exponent 0
    (Some (Segment.mkSegmentData 1 0 0.5 1 1 6 false)) None
  = Some (Ok (Segment.mk (Some 1) (Some 0) (Some 0.5) (Some 1) (Some 1)
                         (Some []) (Some (-1)%Z))).
Proof.
  apply (reversed_bounds_give_empty_segment one_decimal_exponent 0
           1 0 0.5 6 false); try lra.
  exists 2%Z. replace ((1 - 0) / 0.5 - 2) with 0 by lra.
  rewrite Rabs_R0. lra.
Defined.

(** ** A width of zero *)

Lemma py_div_zero (a : R) : py_div a 0 = Raise ZeroDivisionError.
Proof.
  unfold py_div. destruct (Req_dec_T 0 0); [reflexivity | contradiction].
Qed.

Lemma get_vertices_zero_width (s e r : R) (reverse : bool) :
  Segment.get_vertices (prepared s e 0 r) reverse = Raise ZeroDivisionError.
Proof.
  unfold Segment.get_vertices, Segment.log_quotient. simpl.
  rewrite py_div_zero. destruct (Rlt_dec (Rabs (r - 1)) 1e-6); reflexivity.
Qed.

Lemma while_loop_raising {S : Type} (fuel : nat) (cond : S -> bool)
      (body : S -> result S) (s : S) (x : exn) :
  body s = Raise x ->
  while_loop (Datatypes.S fuel) cond body s
  = if cond s then Some (Raise x) else Some (Ok s).
Proof.
  intros H. cbn [while_loop]. rewrite H. reflexivity.
Qed.

Lemma fine_search_zero_width (dexp : R -> Z) (fuel : nat) (s e ratio : R)
      (p : Z) (self : Segment.t) :
  Segment.start self = Some s -> Segment.end_ self = Some e ->
  Segment.compute_optimal_stretch_ratio dexp (S fuel) self 0 ratio p
  = if (Z.abs (dexp ratio) <? p)%Z
    then Some (Raise ZeroDivisionError) else Some (Ok ratio).
Proof.
  intros Hs He.
  unfold Segment.compute_optimal_stretch_ratio, Segment.segment_length.
  rewrite Hs, He. cbn [attr bind fbind].
  rewrite (while_loop_raising _ _ _ _ ZeroDivisionError).
  - cbn [Segment.precision_ratio].
    destruct (Z.abs (dexp ratio) <? p)%Z; reflexivity.
  - unfold Segment.fine_body, Segment.log_quotient_fine.
    rewrite py_div_zero. reflexivity.
Qed.

Lemma coarse_search_zero_width (fuel : nat) (s e ar : R) (p : Z)
      (self : Segment.t) :
  Segment.start self = Some s -> Segment.end_ self = Some e ->
  Segment.compute_stretch_ratio (S fuel) self 0 ar p
  = if (1 <? p)%Z then Some (Raise ZeroDivisionError) else Some (Ok 2).
Proof.
  intros Hs He.
  unfold Segment.compute_stretch_ratio, Segment.segment_length.
  rewrite Hs, He. cbn [attr bind fbind].
  rewrite (while_loop_raising _ _ _ _ ZeroDivisionError).
  - cbn [Segment.current_precision]. destruct (1 <? p)%Z; reflexivity.
  - unfold Segment.coarse_body, Segment.log_quotient.
    rewrite py_div_zero. reflexivity.
Qed.

(** X5. A sub-domain of width zero is always refused with a division by
    zero, whatever its other keys: by the first pass of a search of the
    ratio when there is one, by [get_vertices] otherwise. *)
Theorem zero_width_is_refused
        (dexp : R -> Z) (fuel : nat) (d : Segment.SegmentData) :
  Segment.d_width d = 0 -> (1 <= fuel)%nat ->
  Segment.init dexp fuel (Some d) None = Some (Raise ZeroDivisionError).
Proof.
  intros Hw Hfuel. destruct fuel as [| fuel]; [lia |].
  destruct d as [s e w sr ar p rev]. cbn [Segment.d_width] in Hw. subst w.
  unfold Segment.init, Segment.create_from_yaml_data.
  cbn [Segment.d_start Segment.d_end Segment.d_width Segment.d_stretchRatio
       Segment.d_aspectRatio Segment.d_precision Segment.d_reverse].
  set (self0 := Segment.set_width
                  (Segment.set_bounds Segment.new_segment s e) 0).
  change (attr (Segment.width self0)) with (@Ok R 0). cbn [fbind].
  assert (Hlast : forall ratio,
             Segment.get_vertices (Segment.set_stretch_ratio self0 ratio) rev
             = Raise ZeroDivisionError).
  { intros ratio.
    change (Segment.set_stretch_ratio self0 ratio)
      with (prepared s e 0 ratio).
    apply get_vertices_zero_width. }
  unfold Segment.get_stretch_ratio.
  destruct (Rlt_dec 1e-6 (Rabs (sr - 1))).
  - rewrite (fine_search_zero_width dexp fuel s e sr p self0)
      by reflexivity.
    destruct (Z.abs (dexp sr) <? p)%Z; cbn [fbind]; [reflexivity |].
    rewrite Hlast. reflexivity.
  - destruct (Rlt_dec 1e-6 (Rabs (ar - 1))).
    + rewrite (coarse_search_zero_width fuel s e ar p self0) by reflexivity.
      destruct (1 <? p)%Z; cbn [fbind]; [reflexivity |].
      rewrite (fine_search_zero_width dexp fuel s e 2 p self0)
        by reflexivity.
      destruct (Z.abs (dexp 2%R) <? p)%Z; cbn [fbind]; [reflexivity |].
      rewrite Hlast. reflexivity.
    + cbn [fbind]. rewrite Hlast. reflexivity.
Qed.

Lemma zero_width_is_refused_witness :
  Segment.init one_decimal_exponent 1
    (Some (Segment.mkSegmentData 0 1 0 1 5 6 false)) None
  = Some (Raise ZeroDivisionError).
Proof.
  apply (zero_width_is_refused one_decimal_exponent 1
           (Segment.mkSegmentData 0 1 0 1 5 6 false)).
  - reflexivity.
  - lia.
Defined.

(** ** Gridlines built from YAML data *)

Lemma get_vertices_keeps_bounds (self self' : Segment.t) (reverse : bool)
      (vs : list R) :
  Segment.get_vertices self reverse = Ok (vs, self') ->
  Segment.start self' = Segment.start self
  /\ Segment.end_ self' = Segment.end_ self
  /\ Segment.width self' = Segment.width self
  /\ (exists r, Segment.stretch_ratio self' = Some r).
Proof.
  unfold Segment.get_vertices, Segment.segment_length.
  destruct (Segment.end_ self) as [e |] eqn:He; cbn [attr bind];
    [| discriminate].
  destruct (Segment.start self) as [s |] eqn:Hs; cbn [attr bind];
    [| discriminate].
  destruct (Segment.width self) as [w |] eqn:Hw; cbn [attr bind];
    [| discriminate].
  destruct (Segment.stretch_ratio self) as [r |] eqn:Hr; cbn [attr bind];
    [| discriminate].
  destruct (Rlt_dec (Rabs (r - 1)) 1e-6).
  - destruct (py_div (Rabs (e - s)) w); cbn [bind]; [| discriminate].
    destruct (Rlt_dec _ _); [discriminate |].
    unfold Segment.set_aspect_ratio.
    cbn [Segment.start Segment.end_ attr bind]. rewrite Hs, He.
    cbn [attr bind]. intros H. injection H as _ H. subst self'.
    cbn [Segment.start Segment.end_ Segment.width Segment.stretch_ratio].
    rewrite Hr. eauto 6.
  - destruct (Segment.log_quotient _ _ _); cbn [bind]; [| discriminate].
    destruct (fill_widths _ _ _); cbn [bind]; [| discriminate].
    unfold Segment.set_aspect_ratio, Segment.set_stretch_ratio.
    cbn [Segment.start Segment.end_ Segment.width Segment.stretch_ratio].
    destruct reverse; cbn [Segment.start Segment.end_ attr bind];
      rewrite ?Hs, ?He; cbn [attr bind]; intros H; injection H as _ H;
      subst self';
      cbn [Segment.start Segment.end_ Segment.width Segment.stretch_ratio];
      rewrite ?Hr; eauto 6.
Qed.

Lemma Segment_init_data (dexp : R -> Z) (fuel : nat)
      (d : Segment.SegmentData) (verts : option (list R))
      (segment : Segment.t) :
  Segment.init dexp fuel (Some d) verts = Some (Ok segment) ->
  Segment.start segment = Some (Segment.d_start d)
  /\ Segment.end_ segment = Some (Segment.d_end d)
  /\ Segment.width segment = Some (Segment.d_width d)
  /\ described_segment segment.
Proof.
  unfold Segment.init, Segment.create_from_yaml_data.
  cbn [Segment.set_bounds Segment.set_width Segment.width attr fbind].
  destruct (Segment.get_stretch_ratio dexp fuel _ _ _ _ _) as [[r | x] |];
    cbn [fbind]; try discriminate.
  destruct (Segment.get_vertices _ _) as [[vs self'] | x] eqn:Hv;
    cbn [fbind fst snd]; [| discriminate].
  apply get_vertices_keeps_bounds in Hv.
  destruct Hv as [Hs [He [Hw [r' Hr]]]].
  cbn [Segment.set_vertices Segment.vertices attr fbind].
  intros H. injection H as H. subst segment.
  unfold described_segment.
  cbn [Segment.set_nb_divisions Segment.set_vertices Segment.start
       Segment.end_ Segment.width Segment.nb_divisions
       Segment.stretch_ratio].
  rewrite Hs, He, Hw, Hr. repeat split; try reflexivity.
  exists (Segment.d_end d), (Z.of_nat (List.length vs) - 1)%Z, r'.
  repeat split; reflexivity.
Qed.

Lemma complete_node_start (data : GridLine.Data)
      (before : list GridLine.SubDomain) (node : GridLine.SubDomain)
      (rest : list GridLine.SubDomain) :
  GridLine.y_subDomains data = before ++ node :: rest ->
  Segment.d_start (GridLine.complete_node data (List.length before) node)
  = previous_end data before.
Proof.
  intros H. unfold GridLine.complete_node, previous_end.
  cbn [Segment.d_start].
  destruct before as [| b before] using rev_ind; [reflexivity |].
  rewrite rev_app_distr. cbn [rev app]. rewrite length_app. simpl List.length.
  replace (Nat.eqb (List.length before + 1) 0) with false
    by (symmetry; apply Nat.eqb_neq; lia).
  rewrite H, <- app_assoc.
  replace (List.length before + 1 - 1)%nat with (List.length before) by lia.
  rewrite app_nth2 by lia. rewrite Nat.sub_diag. reflexivity.
Qed.

Lemma create_segments_bounds (dexp : R -> Z) (fuel : nat)
      (data : GridLine.Data) (nodes : list GridLine.SubDomain) :
  forall before segs,
    GridLine.y_subDomains data = before ++ nodes ->
    GridLine.create_segments dexp fuel data (List.length before) nodes
    = Some (Ok segs) ->
    map Segment.end_ segs = map (fun n => Some (GridLine.y_end n)) nodes
    /\ map Segment.start segs
       = map Some (segment_starts (previous_end data before) nodes)
    /\ Forall described_segment segs.
Proof.
  induction nodes as [| node rest IH]; intros before segs Hd H;
    cbn [GridLine.create_segments] in H.
  - injection H as H. subst. repeat split. constructor.
  - destruct (Segment.init dexp fuel _ None) as [[seg | x] |] eqn:Hseg;
      cbn [fbind] in H; try discriminate.
    destruct (GridLine.create_segments dexp fuel data
                (S (List.length before)) rest)
      as [[more | x] |] eqn:Hmore; cbn [fbind] in H; try discriminate.
    injection H as H. subst segs.
    apply Segment_init_data in Hseg.
    destruct Hseg as [Hs [He [_ Hdesc]]].
    rewrite (complete_node_start data before node rest Hd) in Hs.
    cbn [GridLine.complete_node Segment.d_end] in He.
    replace (S (List.length before)) with (List.length (before ++ [node]))
      in Hmore by (rewrite length_app; simpl; lia).
    apply IH in Hmore; [| rewrite <- app_assoc; exact Hd].
    destruct Hmore as [Hends [Hstarts Hdescs]].
    assert (Hp : previous_end data (before ++ [node]) = GridLine.y_end node).
    { unfold previous_end. rewrite rev_app_distr. reflexivity. }
    rewrite Hp in Hstarts.
    cbn [map segment_starts]. rewrite Hs, He, Hends, Hstarts.
    repeat split. constructor; assumption.
Qed.

Lemma GridLine_init_yaml (dexp : R -> Z) (fuel : nat) (data : GridLine.Data)
      (verts : option (list R)) (lbl : option string) (g : GridLine.t) :
  GridLine.init dexp fuel (Some data) verts lbl = Some (Ok g) ->
  GridLine.y_subDomains data <> []
  /\ GridLine.label g = Some (GridLine.y_direction data)
  /\ GridLine.start g = Some (GridLine.y_start data)
  /\ GridLine.end_ g
     = Some (last (map GridLine.y_end (GridLine.y_subDomains data)) 0)
  /\ map Segment.end_ (GridLine.segments g)
     = map (fun n => Some (GridLine.y_end n)) (GridLine.y_subDomains data)
  /\ map Segment.start (GridLine.segments g)
     = map Some (segment_starts (GridLine.y_start data)
                                (GridLine.y_subDomains data))
  /\ Forall described_segment (GridLine.segments g).
Proof.
  unfold GridLine.init, GridLine.create_from_yaml_data.
  destruct (rev (GridLine.y_subDomains data)) as [| last_node others]
    eqn:Hrev; cbn [fbind]; [discriminate |].
  destruct (GridLine.create_segments dexp fuel data 0 _)
    as [[new | x] |] eqn:Hnew; cbn [fbind]; try discriminate.
  cbn [GridLine.segments app].
  destruct (mapM _ new) as [nbs | x]; cbn [fbind]; [| discriminate].
  intros H. injection H as H. subst g.
  cbn [GridLine.label GridLine.start GridLine.end_ GridLine.segments].
  apply (create_segments_bounds dexp fuel data _ [] new eq_refl) in Hnew.
  destruct Hnew as [Hends [Hstarts Hdesc]].
  assert (Hsub : GridLine.y_subDomains data = rev others ++ [last_node]).
  { rewrite <- (rev_involutive (GridLine.y_subDomains data)), Hrev.
    reflexivity. }
  split; [| split; [| split; [| split; [| split; [| split]]]]];
    try reflexivity; try assumption.
  - rewrite Hsub. intros E. apply app_eq_nil in E. destruct E; discriminate.
  - rewrite Hsub, map_app. cbn [map]. rewrite last_last. reflexivity.
Qed.

(** X6. A gridline built from YAML data takes its label and its start
    from the data, whatever label or vertices were passed besides, and its
    end from the last sub-domain; it has one segment per sub-domain, in
    order, each ending where its sub-domain ends and starting where the
    sub-domain before it ends (the first one at the start of the
    gridline).  Data with no sub-domain is refused with an index error. *)
Theorem gridline_from_yaml_is_contiguous
        (dexp : R -> Z) (fuel : nat) (data : GridLine.Data)
        (verts : option (list R)) (lbl : option string) (g : GridLine.t) :
  GridLine.init dexp fuel (Some data) verts lbl = Some (Ok g) ->
  GridLine.label g = Some (GridLine.y_direction data)
  /\ GridLine.start g = Some (GridLine.y_start data)
  /\ GridLine.end_ g
     = Some (last (map GridLine.y_end (GridLine.y_subDomains data)) 0)
  /\ map Segment.end_ (GridLine.segments g)
     = map (fun n => Some (GridLine.y_end n)) (GridLine.y_subDomains data)
  /\ map Segment.start (GridLine.segments g)
     = map Some (segment_starts (GridLine.y_start data)
                                (GridLine.y_subDomains data))
  /\ (forall direction first,
         GridLine.init dexp fuel (Some (GridLine.mkData direction first []))
                       verts lbl
         = Some (Raise IndexError)).
Proof.
  intros H. apply GridLine_init_yaml in H.
  destruct H as [_ [Hl [Hs [He [Hends [Hstarts _]]]]]].
  repeat split; try assumption.
Qed.

Lemma gridline_from_yaml_is_contiguous_witness :
  GridLine.label shared_boundary_line = Some "x"%string
  /\ GridLine.start shared_boundary_line = Some 0
  /\ GridLine.end_ shared_boundary_line
     = Some (last (map GridLine.y_end
                       (GridLine.y_subDomains shared_boundary_data)) 0)
  /\ map Segment.end_ (GridLine.segments shared_boundary_line)
     = map (fun n => Some (GridLine.y_end n))
           (GridLine.y_subDomains shared_boundary_data)
  /\ map Segment.start (GridLine.segments shared_boundary_line)
     = map Some (segment_starts 0
                   (GridLine.y_subDomains shared_boundary_data))
  /\ (forall direction first,
         GridLine.init one_decimal_exponent 0
           (Some (GridLine.mkData direction first [])) None None
         = Some (Raise IndexError)).
Proof.
  apply (gridline_from_yaml_is_contiguous one_decimal_exponent 0
           shared_boundary_data None None shared_boundary_line
           shared_boundary_gridline).
Defined.

(** ** The YAML description of a mesh *)

Lemma map_Some_injective {A : Type} (l l' : list A) :
  map Some l = map Some l' -> l = l'.
Proof.
  revert l'. induction l as [| a l IH]; intros [| a' l'] H;
    try discriminate; [reflexivity |].
  injection H as Ha Hl. subst. f_equal. apply IH, Hl.
Qed.

Lemma described_segments_info (segs : list Segment.t) :
  Forall described_segment segs ->
  exists infos,
    mapM Segment.generate_yaml_info segs = Ok infos
    /\ map (fun i => Some (Segment.i_end i)) infos = map Segment.end_ segs
    /\ map (fun i => Some (Segment.i_cells i)) infos
       = map Segment.nb_divisions segs
    /\ map (fun i => Some (Segment.i_stretchRatio i)) infos
       = map Segment.stretch_ratio segs.
Proof.
  induction 1 as [| seg segs [e [n [r [He [Hn Hr]]]]] Hsegs IH].
  - exists []. repeat split.
  - destruct IH as [infos [Hm [Hends [Hcells Hratios]]]].
    exists (Segment.mkInfo e n r :: infos).
    cbn [mapM]. unfold Segment.generate_yaml_info at 1.
    rewrite He, Hn, Hr. cbn [attr bind]. rewrite Hm. cbn [bind map].
    cbn [Segment.i_end Segment.i_cells Segment.i_stretchRatio].
    rewrite Hends, Hcells, Hratios, He, Hn, Hr. repeat split.
Qed.

(** X7. [generate_yaml_info] describes a gridline built from YAML data:
    it returns the direction and the start of the data and, per
    sub-domain and in order, the end of the sub-domain, the number of
    cells and the resolved stretch ratio of its segment; the numbers of
    cells add up to [nb_divisions]. *)
Theorem yaml_info_of_generated_gridline
        (dexp : R -> Z) (fuel : nat) (data : GridLine.Data)
        (verts : option (list R)) (lbl : option string) (g : GridLine.t) :
  GridLine.init dexp fuel (Some data) verts lbl = Some (Ok g) ->
  exists info,
    GridLine.generate_yaml_info g = Ok info
    /\ GridLine.i_direction info = Some (GridLine.y_direction data)
    /\ GridLine.i_start info = GridLine.y_start data
    /\ map Segment.i_end (GridLine.i_subDomains info)
       = map GridLine.y_end (GridLine.y_subDomains data)
    /\ map (fun i => Some (Segment.i_stretchRatio i))
           (GridLine.i_subDomains info)
       = map Segment.stretch_ratio (GridLine.segments g)
    /\ GridLine.nb_divisions g
       = Some (Zsum (map Segment.i_cells (GridLine.i_subDomains info))).
Proof.
  intros H.
  destruct (GridLine_init_segments _ _ _ _ _ _ H) as [_ [nbs [Hnbs Hnb]]].
  apply GridLine_init_yaml in H.
  destruct H as [_ [Hl [Hs [_ [Hends [_ Hdesc]]]]]].
  destruct (described_segments_info _ Hdesc)
    as [infos [Hm [Hie [Hic Hir]]]].
  exists (GridLine.mkInfo (GridLine.label g) (GridLine.y_start data) infos).
  unfold GridLine.generate_yaml_info. rewrite Hs, Hm. cbn [attr bind].
  cbn [GridLine.i_direction GridLine.i_start GridLine.i_subDomains].
  repeat split; try assumption.
  - apply map_Some_injective. rewrite !map_map, Hie, Hends. reflexivity.
  - rewrite Hnb. do 2 f_equal. apply map_Some_injective.
    rewrite map_map, Hic, Hnbs. reflexivity.
Qed.

Lemma yaml_info_of_generated_gridline_witness :
  exists info,
    GridLine.generate_yaml_info shared_boundary_line = Ok info
    /\ GridLine.i_direction info = Some "x"%string
    /\ GridLine.i_start info = 0
    /\ map Segment.i_end (GridLine.i_subDomains info)
       = map GridLine.y_end (GridLine.y_subDomains shared_boundary_data)
    /\ map (fun i => Some (Segment.i_stretchRatio i))
           (GridLine.i_subDomains info)
       = map Segment.stretch_ratio (GridLine.segments shared_boundary_line)
    /\ GridLine.nb_divisions shared_boundary_line
       = Some (Zsum (map Segment.i_cells (GridLine.i_subDomains info))).
Proof.
  apply (yaml_info_of_generated_gridline one_decimal_exponent 0
           shared_boundary_data None None shared_boundary_line
           shared_boundary_gridline).
Defined.

Lemma np_all_true (v : list R) :
  np_all v = true -> Forall (fun x => x <> 0) v.
Proof.
  unfold np_all. induction v as [| x v IH]; simpl; intros H;
    [constructor |].
  destruct (Req_dec_T x 0); [discriminate |].
  constructor; [assumption | apply IH, H].
Qed.

Lemma GridLine_init_vertices_cases (dexp : R -> Z) (fuel : nat)
      (v : list R) (lbl : option string) :
  GridLine.init dexp fuel None (Some v) lbl = Some (Raise IndexError)
  \/ GridLine.init dexp fuel None (Some v) lbl
     = Some (Ok (empty_gridline lbl))
  \/ (v <> [] /\ Forall (fun x => x <> 0) v
      /\ GridLine.init dexp fuel None (Some v) lbl
         = Some (Ok (gridline_of_vertices lbl v))).
Proof.
  destruct (np_all v) eqn:Hall.
  - apply np_all_true in Hall. destruct v as [| x v].
    + left. reflexivity.
    + right. right. split; [discriminate |]. split; [exact Hall |].
      apply GridLine_init_vertices; [discriminate | exact Hall].
  - right. left. unfold GridLine.init, np_all_opt. rewrite Hall. reflexivity.
Qed.

Lemma slices_length {A : Type} (l : list A) (points : list Z) :
  List.length (slices l points) = pred (List.length points).
Proof.
  induction points as [| st rest IH]; [reflexivity |].
  destruct rest as [| en rest]; [reflexivity |].
  cbn [slices List.length pred] in *. rewrite IH. reflexivity.
Qed.

Lemma np_split_length {A : Type} (l : list A) (indices : list Z) :
  List.length (np_split l indices) = S (List.length indices).
Proof.
  unfold np_split. rewrite slices_length. cbn [List.length pred].
  rewrite length_app. simpl. lia.
Qed.

Lemma read_gridlines_undescribed (dexp : R -> Z) (fuel : nat)
      (chunks : list (list R)) :
  forall index m m',
    CartesianStructuredMesh.read_gridlines dexp fuel m index chunks
    = Some (Ok m') ->
    exists new,
      CartesianStructuredMesh.gridlines m'
      = CartesianStructuredMesh.gridlines m ++ new
      /\ List.length new = List.length chunks
      /\ Forall (fun g => GridLine.generate_yaml_info g
                          = Raise AttributeError) new.
Proof.
  induction chunks as [| chunk rest IH]; intros index m m' H;
    cbn [CartesianStructuredMesh.read_gridlines] in H.
  - injection H as H. subst. exists []. rewrite app_nil_r.
    repeat split. constructor.
  - destruct (nth_error CartesianStructuredMesh.labels index) as [lbl |];
      [| discriminate].
    destruct (GridLine_init_vertices_cases dexp fuel chunk (Some lbl))
      as [Hg | [Hg | [_ [_ Hg]]]]; rewrite Hg in H; cbn [fbind] in H;
      [discriminate | |];
      apply IH in H; destruct H as [new [Hnew [Hlen Hall]]];
      cbn [CartesianStructuredMesh.gridlines] in Hnew;
      rewrite <- app_assoc in Hnew;
      eexists; (split; [exact Hnew |]); (split; [simpl; lia |]);
      constructor; try assumption; reflexivity.
Qed.

(** X8. A mesh read from a grid file cannot be written as YAML
    parameters: its gridlines hold no start or no end, width and ratio of
    segment, so that [write_yaml_file] raises an attribute error on every
    mesh that [read] has built from scratch. *)
Theorem mesh_read_from_file_has_no_yaml
        (dexp : R -> Z) (fuel : nat)
        (fs : CartesianStructuredMesh.filesystem) (path : string)
        (m : CartesianStructuredMesh.t) :
  CartesianStructuredMesh.read dexp fuel CartesianStructuredMesh.init
                               fs path
  = Some (Ok m) ->
  CartesianStructuredMesh.write_yaml_file m = Raise AttributeError.
Proof.
  unfold CartesianStructuredMesh.read.
  destruct (fs path) as [infile |]; [| discriminate].
  destruct (CartesianStructuredMesh.split_loaded _ _) as [chunks | x]
    eqn:Hsplit; cbn [fbind]; [| discriminate].
  intros H. apply read_gridlines_undescribed in H.
  destruct H as [new [Hnew [Hlen Hall]]].
  assert (Hne : chunks <> []).
  { unfold CartesianStructuredMesh.split_loaded in Hsplit.
    assert (E : chunks = np_split (CartesianStructuredMesh.values infile)
                           (Zcumsum (map (fun n => (n + 1)%Z)
                              (removelast
                                 (CartesianStructuredMesh.header infile))))).
    { destruct (CartesianStructuredMesh.values infile) as [| a [| b l]];
        try discriminate; injection Hsplit as Hsplit; subst; reflexivity. }
    intros Hnil. pose proof (np_split_length
                               (CartesianStructuredMesh.values infile)
                               (Zcumsum (map (fun n => (n + 1)%Z)
                                  (removelast
                                     (CartesianStructuredMesh.header
                                        infile))))) as Hl.
    rewrite <- E, Hnil in Hl. discriminate. }
  destruct new as [| g new]; [destruct chunks; [contradiction | discriminate] |].
  unfold CartesianStructuredMesh.write_yaml_file. rewrite Hnew.
  cbn [CartesianStructuredMesh.init CartesianStructuredMesh.gridlines app
       mapM].
  inversion Hall as [| ? ? Hg _]. rewrite Hg. reflexivity.
Qed.

Lemma mesh_read_from_file_has_no_yaml_witness :
  CartesianStructuredMesh.write_yaml_file unit_square_read_back
  = Raise AttributeError.
Proof.
  apply (mesh_read_from_file_has_no_yaml one_decimal_exponent 0
           (CartesianStructuredMesh.store no_file "grid.txt" zero_based_file)
           "grid.txt" unit_square_read_back read_zero_based_file).
Defined.

(** ** Files of more than three directions *)

Lemma Zcumsum_from_length (l : list Z) (acc : Z) :
  List.length (Zcumsum_from acc l) = List.length l.
Proof.
  revert acc. induction l as [| x l IH]; intros acc; simpl;
    [| rewrite IH]; reflexivity.
Qed.

Lemma removelast_pred_length {A : Type} (l : list A) :
  List.length (removelast l) = pred (List.length l).
Proof.
  induction l as [| a l IH]; [reflexivity |].
  destruct l as [| b l]; [reflexivity |].
  change (removelast (a :: b :: l)) with (a :: removelast (b :: l)).
  cbn [List.length pred] in *. rewrite IH. reflexivity.
Qed.

Lemma read_gridlines_too_many (dexp : R -> Z) (fuel : nat)
      (chunks : list (list R)) :
  forall index m,
    (index <= 3)%nat -> (3 < index + List.length chunks)%nat ->
    exists x,
      CartesianStructuredMesh.read_gridlines dexp fuel m index chunks
      = Some (Raise x).
Proof.
  induction chunks as [| chunk rest IH]; intros index m Hi Hn;
    [simpl in Hn; lia |].
  cbn [CartesianStructuredMesh.read_gridlines].
  destruct (nth_error CartesianStructuredMesh.labels index) as [lbl |]
    eqn:Hl; [| eauto].
  assert (Hlt : (index < 3)%nat).
  { change 3%nat with (List.length CartesianStructuredMesh.labels).
    apply (proj1 (nth_error_Some _ _)). rewrite Hl. discriminate. }
  destruct (GridLine_init_vertices_cases dexp fuel chunk (Some lbl))
    as [Hg | [Hg | [_ [_ Hg]]]]; rewrite Hg; cbn [fbind]; [eauto | |];
    apply IH; simpl in Hn; lia.
Qed.

(** X9. [read] never builds a mesh from a file whose header holds more
    than three counts: there are three labels only, so the call raises, at
    the fourth chunk at the latest.  ([write] puts no such limit on the
    mesh it writes.) *)
Theorem read_refuses_more_than_three_directions
        (dexp : R -> Z) (fuel : nat) (m : CartesianStructuredMesh.t)
        (fs : CartesianStructuredMesh.filesystem) (path : string)
        (infile : CartesianStructuredMesh.GridFile) :
  fs path = Some infile ->
  (4 <= List.length (CartesianStructuredMesh.header infile))%nat ->
  exists x,
    CartesianStructuredMesh.read dexp fuel m fs path = Some (Raise x).
Proof.
  intros Hfile Hlen. unfold CartesianStructuredMesh.read. rewrite Hfile.
  unfold CartesianStructuredMesh.split_loaded.
  set (indices := Zcumsum (map (fun n => (n + 1)%Z)
                     (removelast (CartesianStructuredMesh.header infile)))).
  assert (Hchunks : (3 < 0 + List.length
                             (np_split
                                (CartesianStructuredMesh.values infile)
                                indices))%nat).
  { rewrite np_split_length. unfold indices, Zcumsum.
    rewrite Zcumsum_from_length, length_map, removelast_pred_length. lia. }
  destruct (CartesianStructuredMesh.values infile) as [| a [| b l]];
    cbn [fbind]; [| eauto |];
    apply read_gridlines_too_many; (lia || exact Hchunks).
Qed.

Lemma read_refuses_more_than_three_directions_witness :
  exists x,
    CartesianStructuredMesh.read one_decimal_exponent 0
      CartesianStructuredMesh.init
      (CartesianStructuredMesh.store no_file "grid.txt"
         (CartesianStructuredMesh.mkGridFile
            [1%Z; 1%Z; 1%Z; 1%Z] [1; 2; 1; 2; 1; 2; 1; 2]))
      "grid.txt"
    = Some (Raise x).
Proof.
  apply (read_refuses_more_than_three_directions one_decimal_exponent 0
           CartesianStructuredMesh.init
           (CartesianStructuredMesh.store no_file "grid.txt"
              (CartesianStructuredMesh.mkGridFile
                 [1%Z; 1%Z; 1%Z; 1%Z] [1; 2; 1; 2; 1; 2; 1; 2]))
           "grid.txt"
           (CartesianStructuredMesh.mkGridFile
              [1%Z; 1%Z; 1%Z; 1%Z] [1; 2; 1; 2; 1; 2; 1; 2])).
  - reflexivity.
  - simpl. lia.
Defined.

(** ** Cutting the values of a grid file *)

Lemma skipn_length_app {A : Type} (pre l : list A) :
  skipn (List.length pre) (pre ++ l) = l.
Proof. induction pre as [| a pre IH]; simpl; auto. Qed.

Lemma firstn_length_app {A : Type} (b l : list A) :
  firstn (List.length b) (b ++ l) = b.
Proof. induction b as [| a b IH]; simpl; [| rewrite IH]; reflexivity. Qed.

Lemma py_slice_block {A : Type} (pre b post : list A) :
  py_slice (pre ++ b ++ post) (Z.of_nat (List.length pre))
           (Z.of_nat (List.length pre) + Z.of_nat (List.length b))
  = b.
Proof.
  unfold py_slice, py_index. rewrite !length_app.
  replace (Z.of_nat (List.length pre) <? 0)%Z with false
    by (symmetry; apply Z.ltb_ge; lia).
  replace (Z.of_nat (List.length pre) + Z.of_nat (List.length b) <? 0)%Z
    with false by (symmetry; apply Z.ltb_ge; lia).
  rewrite !Z.min_l by lia.
  replace (Z.to_nat (Z.of_nat (List.length pre) + Z.of_nat (List.length b)
                     - Z.of_nat (List.length pre)))
    with (List.length b) by lia.
  rewrite Nat2Z.id, skipn_length_app. apply firstn_length_app.
Qed.

Lemma slices_cons2 {A : Type} (l : list A) (st en : Z) (rest : list Z) :
  slices l (st :: en :: rest) = py_slice l st en :: slices l (en :: rest).
Proof. reflexivity. Qed.

Lemma boundaries_head (off : Z) (blocks : list (list R)) :
  exists more, boundaries off blocks = off :: more.
Proof. destruct blocks; simpl; eauto. Qed.

Lemma slices_boundaries (blocks : list (list R)) :
  forall pre,
    slices (pre ++ concat blocks)
           (boundaries (Z.of_nat (List.length pre)) blocks)
    = blocks.
Proof.
  induction blocks as [| b rest IH]; intros pre; [reflexivity |].
  cbn [boundaries concat].
  destruct (boundaries_head (Z.of_nat (List.length pre)
                             + Z.of_nat (List.length b)) rest)
    as [more Hmore].
  rewrite Hmore, slices_cons2, py_slice_block. f_equal.
  rewrite <- Hmore, app_assoc.
  replace (Z.of_nat (List.length pre) + Z.of_nat (List.length b))%Z
    with (Z.of_nat (List.length (pre ++ b)))
    by (rewrite length_app; lia).
  apply IH.
Qed.

Lemma split_points (blocks : list (list R)) :
  blocks <> [] ->
  forall off,
    off :: Zcumsum_from off
             (map (fun n => (n + 1)%Z) (removelast (counts_of blocks)))
        ++ [(off + Z.of_nat (List.length (concat blocks)))%Z]
    = boundaries off blocks.
Proof.
  induction blocks as [| b rest IH]; intros Hne off; [contradiction |].
  destruct rest as [| b' rest].
  - simpl. rewrite app_nil_r. reflexivity.
  - change (counts_of (b :: b' :: rest))
      with ((Z.of_nat (List.length b) - 1)%Z :: counts_of (b' :: rest)).
    change (removelast ((Z.of_nat (List.length b) - 1)%Z
                        :: counts_of (b' :: rest)))
      with ((Z.of_nat (List.length b) - 1)%Z
            :: removelast (counts_of (b' :: rest))).
    change (boundaries off (b :: b' :: rest))
      with (off :: boundaries (off + Z.of_nat (List.length b))
                              (b' :: rest)).
    rewrite <- (IH ltac:(discriminate) (off + Z.of_nat (List.length b))%Z).
    cbn [map Zcumsum_from app].
    replace (off + (Z.of_nat (List.length b) - 1 + 1))%Z
      with (off + Z.of_nat (List.length b))%Z by lia.
    do 3 f_equal.
    change (concat (b :: b' :: rest)) with (b ++ concat (b' :: rest)).
    rewrite length_app. f_equal. lia.
Qed.

Lemma split_loaded_blocks (blocks : list (list R)) :
  blocks <> [] -> List.length (concat blocks) <> 1%nat ->
  CartesianStructuredMesh.split_loaded (concat blocks)
    (Zcumsum (map (fun n => (n + 1)%Z) (removelast (counts_of blocks))))
  = Ok blocks.
Proof.
  intros Hne Hlen. unfold CartesianStructuredMesh.split_loaded.
  assert (E : np_split (concat blocks)
                (Zcumsum (map (fun n => (n + 1)%Z)
                              (removelast (counts_of blocks))))
              = blocks).
  { unfold np_split, Zcumsum.
    pose proof (split_points blocks Hne 0%Z) as Hp.
    rewrite Z.add_0_l in Hp. rewrite Hp.
    apply (slices_boundaries blocks []). }
  destruct (concat blocks) as [| a [| a' l]] eqn:Hc;
    [| simpl in Hlen; contradiction |]; rewrite E; reflexivity.
Qed.

Lemma write_content (m : CartesianStructuredMesh.t)
      (fs : CartesianStructuredMesh.filesystem) (path : string)
      (precision : Z) (blocks : list (list R)) :
  mapM (fun g => GridLine.get_vertices g precision)
       (CartesianStructuredMesh.gridlines m) = Ok blocks ->
  map GridLine.nb_divisions (CartesianStructuredMesh.gridlines m)
  = map Some (counts_of blocks) ->
  CartesianStructuredMesh.write m fs path precision
  = Ok (CartesianStructuredMesh.store fs path
          (CartesianStructuredMesh.mkGridFile (counts_of blocks)
                                              (concat blocks))).
Proof.
  intros Hv Hn. unfold CartesianStructuredMesh.write,
    CartesianStructuredMesh.get_number_cells.
  rewrite (mapM_attr_some _ _ _ Hn). cbn [bind snd]. rewrite Hv.
  reflexivity.
Qed.

(** ** The vertices that a gridline returns *)

Lemma np_round_idempotent (precision : Z) (x : R) :
  np_round precision (np_round precision x) = np_round precision x.
Proof.
  apply np_round_exact. exists (rint (x * powerRZ 10 precision)).
  unfold np_round. field. apply powerRZ_NOR. lra.
Qed.

Lemma map_fixed {A : Type} (f : A -> A) (l : list A) :
  Forall (fun x => f x = x) l -> map f l = l.
Proof.
  induction 1 as [| x l Hx Hl IH]; simpl; [| rewrite Hx, IH]; reflexivity.
Qed.

Lemma np_unique_strictly_increasing (l : list R) :
  strictly_increasing l -> np_unique l = l.
Proof.
  intros Hl. unfold np_unique.
  rewrite np_sort_sorted by (apply strictly_weakly, Hl).
  apply dedup_adjacent_distinct, Hl.
Qed.

Lemma get_vertices_fixed (g : GridLine.t) (precision : Z) (vs : list R) :
  GridLine.get_vertices g precision = Ok vs ->
  strictly_increasing vs
  /\ Forall (fun x => np_round precision x = x) vs.
Proof.
  intros H. apply get_vertices_unique in H. destruct H as [_ ->].
  split; [apply np_unique_strictly |].
  apply Forall_forall. intros y Hy. apply -> np_unique_In in Hy.
  apply in_concat in Hy. destruct Hy as [a [Ha Hy]].
  unfold rounded_arrays in Ha. apply in_map_iff in Ha.
  destruct Ha as [segment [<- _]].
  apply in_map_iff in Hy. destruct Hy as [x [<- _]].
  apply np_round_idempotent.
Qed.

Lemma get_vertices_of_vertices (lbl : option string) (precision : Z)
      (b : list R) :
  strictly_increasing b ->
  Forall (fun x => np_round precision x = x) b ->
  GridLine.get_vertices (gridline_of_vertices lbl b) precision = Ok b.
Proof.
  intros Hs Hr. unfold GridLine.get_vertices, gridline_of_vertices,
    segment_of_vertices.
  cbn [GridLine.segments mapM Segment.vertices attr bind].
  rewrite (map_fixed _ _ Hr).
  cbn [np_concatenate bind concat]. rewrite app_nil_r.
  rewrite (np_unique_strictly_increasing b Hs). reflexivity.
Qed.

Lemma mapM_Forall2 {A B : Type} (f : A -> result B) (l : list A)
      (vs : list B) :
  mapM f l = Ok vs -> Forall2 (fun a v => f a = Ok v) l vs.
Proof.
  revert vs. induction l as [| a l IH]; intros vs H; simpl in H.
  - injection H as <-. constructor.
  - destruct (f a) as [v | x] eqn:Hv; cbn [bind] in H; [| discriminate].
    destruct (mapM f l) as [vs' | x] eqn:Hvs; cbn [bind] in H;
      [| discriminate].
    injection H as <-. constructor; [exact Hv | apply IH; reflexivity].
Qed.

(** X14. The array that [GridLine.get_vertices] returns is strictly
    increasing, and each of its entries is a whole number of units
    [10^-precision]; the gridline has a segment at least.  A gridline made
    of that array alone, as [create_from_vertices] makes it, returns the
    same array at the same precision. *)
Theorem gridline_vertices_sorted_and_rounded (g : GridLine.t)
        (precision : Z) (vs : list R) :
  GridLine.get_vertices g precision = Ok vs ->
  GridLine.segments g <> []
  /\ strictly_increasing vs
  /\ Forall (fun x => exists k : Z, x * powerRZ 10 precision = IZR k) vs
  /\ forall lbl,
       GridLine.get_vertices (gridline_of_vertices lbl vs) precision = Ok vs.
Proof.
  intros H. destruct (get_vertices_fixed g precision vs H) as [Hs Hr].
  pose proof (get_vertices_unique g precision vs H) as [Hne Hvs].
  split; [exact Hne |]. split; [exact Hs |]. split.
  - apply Forall_forall. intros y Hy.
    rewrite Forall_forall in Hr. rewrite <- (Hr y Hy).
    exists (rint (y * powerRZ 10 precision)).
    unfold np_round. field. apply powerRZ_NOR. lra.
  - intros lbl. apply get_vertices_of_vertices; assumption.
Qed.

Lemma gridline_vertices_sorted_and_rounded_witness :
  GridLine.segments (unit_line "x") <> []
  /\ strictly_increasing [0; 0.5; 1]
  /\ Forall (fun x => exists k : Z, x * powerRZ 10 6 = IZR k) [0; 0.5; 1]
  /\ forall lbl,
       GridLine.get_vertices (gridline_of_vertices lbl [0; 0.5; 1]) 6
       = Ok [0; 0.5; 1].
Proof.
  exact (gridline_vertices_sorted_and_rounded (unit_line "x") 6 [0; 0.5; 1]
           (unit_line_vertices "x")).
Defined.

(** ** Writing a mesh and reading the file *)

Lemma read_gridlines_blocks (dexp : R -> Z) (fuel : nat)
      (blocks : list (list R)) :
  forall (m : CartesianStructuredMesh.t) (index : nat),
    (index + List.length blocks <= 3)%nat ->
    Forall (fun b => b <> [] /\ Forall (fun x => x <> 0) b) blocks ->
    CartesianStructuredMesh.read_gridlines dexp fuel m index blocks
    = Some (Ok (CartesianStructuredMesh.mk
                  (CartesianStructuredMesh.gridlines m
                   ++ lines_of_blocks index blocks))).
Proof.
  induction blocks as [| b rest IH]; intros m index Hlen Hok.
  - cbn [CartesianStructuredMesh.read_gridlines lines_of_blocks].
    rewrite app_nil_r. destruct m. reflexivity.
  - cbn [List.length] in Hlen. inversion Hok as [| ? ? [Hne Hnz] Hrest]; subst.
    cbn [CartesianStructuredMesh.read_gridlines lines_of_blocks].
    rewrite (nth_error_nth' CartesianStructuredMesh.labels ""%string)
      by (change (List.length CartesianStructuredMesh.labels) with 3%nat;
          lia).
    rewrite (GridLine_init_vertices dexp fuel b _ Hne Hnz). cbn [fbind].
    rewrite IH by (try assumption; lia).
    cbn [CartesianStructuredMesh.gridlines]. rewrite <- app_assoc.
    reflexivity.
Qed.

Lemma lines_of_blocks_divisions (blocks : list (list R)) :
  forall index,
    map GridLine.nb_divisions (lines_of_blocks index blocks)
    = map Some (counts_of blocks).
Proof.
  induction blocks as [| b rest IH]; intros index; [reflexivity |].
  cbn [lines_of_blocks map counts_of]. unfold counts_of in IH.
  rewrite IH. reflexivity.
Qed.

Lemma lines_of_blocks_vertices (precision : Z) (blocks : list (list R)) :
  Forall (fun b => strictly_increasing b
                   /\ Forall (fun x => np_round precision x = x) b) blocks ->
  forall index,
    mapM (fun g => GridLine.get_vertices g precision)
         (lines_of_blocks index blocks)
    = Ok blocks.
Proof.
  induction 1 as [| b rest [Hs Hr] Hrest IH]; intros index; [reflexivity |].
  cbn [lines_of_blocks mapM].
  rewrite (get_vertices_of_vertices _ precision b Hs Hr). cbn [bind].
  rewrite IH. reflexivity.
Qed.

Lemma written_blocks_fixed (precision : Z) (lines : list GridLine.t)
      (blocks : list (list R)) :
  mapM (fun g => GridLine.get_vertices g precision) lines = Ok blocks ->
  Forall (fun b => strictly_increasing b
                   /\ Forall (fun x => np_round precision x = x) b) blocks.
Proof.
  intros H. apply mapM_Forall2 in H.
  induction H as [| g b lines blocks Hg Hrest IH]; constructor;
    [apply (get_vertices_fixed g precision b Hg) | exact IH].
Qed.

Lemma removelast_map {A B : Type} (f : A -> B) (l : list A) :
  removelast (map f l) = map f (removelast l).
Proof.
  induction l as [| a l IH]; [reflexivity |].
  destruct l as [| b l]; [reflexivity |].
  change (removelast (map f (a :: b :: l)))
    with (f a :: removelast (map f (b :: l))).
  rewrite IH. reflexivity.
Qed.

Lemma split_loaded_header (h : list Z) (blocks : list (list R)) :
  blocks <> [] -> List.length (concat blocks) <> 1%nat ->
  removelast h = counts_of (removelast blocks) ->
  CartesianStructuredMesh.split_loaded (concat blocks)
    (Zcumsum (map (fun n => (n + 1)%Z) (removelast h)))
  = Ok blocks.
Proof.
  intros Hne Hone Hh. rewrite Hh. unfold counts_of.
  rewrite <- removelast_map. apply split_loaded_blocks; assumption.
Qed.

(** C9, as amended.  [read] does not compare the counts of the header with
    the number of values, and reports no mismatch: the values are cut after
    [count+1] values for every entry of the header but the last, the last
    count is never used, and the last gridline takes the values that
    remain.  When the values are one to three chunks, each but the last of
    the length that the header gives it, none empty and none holding 0.0,
    more than one value in all, [read] returns one gridline per chunk, in
    order, whose number of divisions is the length of its chunk minus one,
    whatever the last count of the header says. *)
Theorem read_does_not_check_header
        (dexp : R -> Z) (fuel : nat)
        (fs : CartesianStructuredMesh.filesystem) (path : string)
        (counts : list Z) (blocks : list (list R)) :
  fs path = Some (CartesianStructuredMesh.mkGridFile counts (concat blocks)) ->
  removelast counts = counts_of (removelast blocks) ->
  (1 <= List.length blocks <= 3)%nat ->
  Forall (fun b => b <> [] /\ ~ In 0 b) blocks ->
  List.length (concat blocks) <> 1%nat ->
  CartesianStructuredMesh.read dexp fuel CartesianStructuredMesh.init fs path
  = Some (Ok (CartesianStructuredMesh.mk (lines_of_blocks 0 blocks)))
  /\ map GridLine.nb_divisions (lines_of_blocks 0 blocks)
     = map Some (counts_of blocks)
  /\ map (fun g => map Segment.vertices (GridLine.segments g))
         (lines_of_blocks 0 blocks)
     = map (fun b => [Some b]) blocks.
Proof.
  intros Hfile Hcounts Hlen Hok Hone.
  assert (Hne : blocks <> []).
  { intros ->. simpl in Hlen. lia. }
  split; [| split].
  - unfold CartesianStructuredMesh.read. rewrite Hfile.
    cbn [CartesianStructuredMesh.header CartesianStructuredMesh.values].
    rewrite (split_loaded_header counts blocks Hne Hone Hcounts).
    cbn [fbind].
    rewrite read_gridlines_blocks; [reflexivity | simpl; lia |].
    eapply Forall_impl; [| exact Hok].
    intros b [Hb Hz]. split; [exact Hb |].
    apply Forall_forall. intros x Hx E. subst. contradiction.
  - apply lines_of_blocks_divisions.
  - generalize 0%nat. clear. induction blocks as [| b rest IH]; intros index;
      [reflexivity |].
    cbn [lines_of_blocks map]. rewrite IH. reflexivity.
Qed.

Lemma read_does_not_check_header_witness :
  CartesianStructuredMesh.read unused_exponent 0 CartesianStructuredMesh.init
    (CartesianStructuredMesh.store no_file "grid.txt" short_file) "grid.txt"
  = Some (Ok (CartesianStructuredMesh.mk
                (lines_of_blocks 0 [[1; 2; 3]; [4; 5; 6]])))
  /\ map GridLine.nb_divisions (lines_of_blocks 0 [[1; 2; 3]; [4; 5; 6]])
     = map Some (counts_of [[1; 2; 3]; [4; 5; 6]])
  /\ map (fun g => map Segment.vertices (GridLine.segments g))
         (lines_of_blocks 0 [[1; 2; 3]; [4; 5; 6]])
     = map (fun b => [Some b]) [[1; 2; 3]; [4; 5; 6]].
Proof.
  apply (read_does_not_check_header unused_exponent 0
           (CartesianStructuredMesh.store no_file "grid.txt" short_file)
           "grid.txt" [2%Z; 5%Z] [[1; 2; 3]; [4; 5; 6]]).
  - reflexivity.
  - reflexivity.
  - simpl. lia.
  - repeat constructor; try discriminate;
      simpl; intros H; decompose [or] H; lra.
  - simpl. lia.
Defined.

Lemma offset_line_init (lbl : string) :
  GridLine.init one_decimal_exponent 0
    (Some (GridLine.mkData lbl 1 [plain_subdomain 2 0.5])) None None
  = Some (Ok (offset_line lbl)).
Proof.
  unfold GridLine.init, GridLine.create_from_yaml_data.
  cbn [GridLine.y_subDomains rev app GridLine.create_segments].
  change (GridLine.complete_node _ 0 _)
    with (Segment.mkSegmentData 1 2 0.5 1 1 6 false).
  rewrite (Segment_init_uniform one_decimal_exponent 0 1 2 0.5 6 false 2)
    by (simpl; lra).
  reflexivity.
Qed.

Lemma offset_line_vertices (lbl : string) :
  GridLine.get_vertices (offset_line lbl) 6 = Ok [1; 1.5; 2].
Proof.
  unfold GridLine.get_vertices, offset_line, uniform_segment.
  cbn [GridLine.segments mapM Segment.vertices attr bind].
  rewrite map_np_round_exact.
  - cbn [np_concatenate bind concat app arithmetic_sequence].
    unfold np_unique.
    rewrite np_sort_sorted by (simpl; lra).
    rewrite dedup_adjacent_distinct by (simpl; lra).
    f_equal. repeat (f_equal; try lra).
  - simpl. repeat constructor.
    + exists 1000000%Z. lra.
    + exists 1500000%Z. lra.
    + exists 2000000%Z. lra.
Qed.

Lemma offset_square_blocks :
  mapM (fun g => GridLine.get_vertices g 6)
       (CartesianStructuredMesh.gridlines offset_square_mesh)
  = Ok [[1; 1.5; 2]; [1; 1.5; 2]].
Proof.
  unfold offset_square_mesh.
  cbn [CartesianStructuredMesh.gridlines mapM].
  rewrite !offset_line_vertices. reflexivity.
Qed.

Lemma store_same (fs : CartesianStructuredMesh.filesystem) (path : string)
      (f : CartesianStructuredMesh.GridFile) :
  CartesianStructuredMesh.store fs path f path = Some f.
Proof.
  unfold CartesianStructuredMesh.store. rewrite String.eqb_refl. reflexivity.
Qed.

(** X10. Writing a mesh and reading the file into a fresh mesh gives back
    the vertices.  When the mesh has one to three gridlines, their vertices
    at the precision of the call are non-empty arrays without the value 0,
    more than one value in all, and each gridline counts one division less
    than it has vertices, then [write] succeeds, [read] returns one gridline
    per direction, labelled x, y, z in order and made of the vertices
    alone, and the mesh read returns the same vertices at that precision and
    the same numbers of cells. *)
Theorem write_then_read_gives_vertices (dexp : R -> Z) (fuel : nat)
        (m : CartesianStructuredMesh.t)
        (fs : CartesianStructuredMesh.filesystem) (path : string)
        (precision : Z) (blocks : list (list R)) :
  mapM (fun g => GridLine.get_vertices g precision)
       (CartesianStructuredMesh.gridlines m) = Ok blocks ->
  map GridLine.nb_divisions (CartesianStructuredMesh.gridlines m)
  = map Some (counts_of blocks) ->
  (1 <= List.length blocks <= 3)%nat ->
  Forall (fun b => b <> [] /\ ~ In 0 b) blocks ->
  List.length (concat blocks) <> 1%nat ->
  exists fs',
    CartesianStructuredMesh.write m fs path precision = Ok fs'
    /\ CartesianStructuredMesh.read dexp fuel CartesianStructuredMesh.init
         fs' path
       = Some (Ok (CartesianStructuredMesh.mk (lines_of_blocks 0 blocks)))
    /\ mapM (fun g => GridLine.get_vertices g precision)
            (lines_of_blocks 0 blocks) = Ok blocks
    /\ CartesianStructuredMesh.get_number_cells
         (CartesianStructuredMesh.mk (lines_of_blocks 0 blocks))
       = CartesianStructuredMesh.get_number_cells m.
Proof.
  intros Hv Hn Hlen Hok Hone.
  assert (Hne : blocks <> []).
  { intros ->. simpl in Hlen. lia. }
  eexists. split; [apply (write_content m fs path precision blocks Hv Hn) |].
  split; [| split].
  - unfold CartesianStructuredMesh.read. rewrite store_same.
    cbn [CartesianStructuredMesh.header CartesianStructuredMesh.values].
    rewrite (split_loaded_blocks blocks Hne Hone). cbn [fbind].
    rewrite read_gridlines_blocks; [reflexivity | simpl; lia |].
    eapply Forall_impl; [| exact Hok].
    intros b [Hb Hz]. split; [exact Hb |].
    apply Forall_forall. intros x Hx E. subst. contradiction.
  - apply lines_of_blocks_vertices.
    apply (written_blocks_fixed precision _ _ Hv).
  - unfold CartesianStructuredMesh.get_number_cells.
    cbn [CartesianStructuredMesh.gridlines].
    rewrite (mapM_attr_some _ _ _ (lines_of_blocks_divisions blocks 0)).
    rewrite (mapM_attr_some _ _ _ Hn). reflexivity.
Qed.

Lemma write_then_read_gives_vertices_witness :
  exists fs',
    CartesianStructuredMesh.write offset_square_mesh no_file "mesh.dat" 6
    = Ok fs'
    /\ CartesianStructuredMesh.read unused_exponent 0
         CartesianStructuredMesh.init fs' "mesh.dat"
       = Some (Ok (CartesianStructuredMesh.mk
                     (lines_of_blocks 0 [[1; 1.5; 2]; [1; 1.5; 2]])))
    /\ mapM (fun g => GridLine.get_vertices g 6)
            (lines_of_blocks 0 [[1; 1.5; 2]; [1; 1.5; 2]])
       = Ok [[1; 1.5; 2]; [1; 1.5; 2]]
    /\ CartesianStructuredMesh.get_number_cells
         (CartesianStructuredMesh.mk
            (lines_of_blocks 0 [[1; 1.5; 2]; [1; 1.5; 2]]))
       = CartesianStructuredMesh.get_number_cells offset_square_mesh.
Proof.
  apply (write_then_read_gives_vertices unused_exponent 0 offset_square_mesh
           no_file "mesh.dat" 6 [[1; 1.5; 2]; [1; 1.5; 2]]).
  - exact offset_square_blocks.
  - reflexivity.
  - simpl. lia.
  - repeat constructor; try discriminate;
      simpl; intros H; decompose [or] H; lra.
  - simpl. lia.
Defined.

Lemma unit_square_blocks :
  mapM (fun g => GridLine.get_vertices g 6)
       (CartesianStructuredMesh.gridlines unit_square_mesh)
  = Ok [[0; 0.5; 1]; [0; 0.5; 1]].
Proof.
  unfold unit_square_mesh.
  cbn [CartesianStructuredMesh.gridlines mapM].
  rewrite !unit_line_vertices. reflexivity.
Qed.

(** X11. [PetIBMSimulation.read_grid] gives back what
    [CartesianStructuredMesh.write] wrote.  When the mesh has a gridline at
    least, more than one vertex in all, and each gridline counts one
    division less than it has vertices, then after [write] to
    [directory/file_name] the call [read_grid(file_name)] stores the
    vertices of the gridlines, in order, whatever the grid held before;
    vertices equal to 0 and any number of directions are kept. *)
Theorem read_grid_gives_written_vertices (m : CartesianStructuredMesh.t)
        (fs : CartesianStructuredMesh.filesystem)
        (directory file_name : string) (precision : Z)
        (blocks : list (list R)) :
  mapM (fun g => GridLine.get_vertices g precision)
       (CartesianStructuredMesh.gridlines m) = Ok blocks ->
  map GridLine.nb_divisions (CartesianStructuredMesh.gridlines m)
  = map Some (counts_of blocks) ->
  blocks <> [] ->
  List.length (concat blocks) <> 1%nat ->
  exists fs',
    CartesianStructuredMesh.write m fs (directory ++ "/" ++ file_name)
                                  precision = Ok fs'
    /\ forall before,
         PetIBMSimulation.read_grid (PetIBMSimulation.mk directory before)
                                    fs' file_name
         = Ok (PetIBMSimulation.mk directory (Some blocks)).
Proof.
  intros Hv Hn Hne Hone.
  eexists. split; [apply (write_content m fs _ precision blocks Hv Hn) |].
  intros before. unfold PetIBMSimulation.read_grid.
  cbn [PetIBMSimulation.directory]. rewrite store_same.
  cbn [CartesianStructuredMesh.header CartesianStructuredMesh.values].
  rewrite (split_loaded_blocks blocks Hne Hone). reflexivity.
Qed.

Lemma read_grid_gives_written_vertices_witness :
  exists fs',
    CartesianStructuredMesh.write unit_square_mesh no_file
                                  ("run" ++ "/" ++ "grid.txt") 6 = Ok fs'
    /\ forall before,
         PetIBMSimulation.read_grid (PetIBMSimulation.mk "run" before)
                                    fs' "grid.txt"
         = Ok (PetIBMSimulation.mk "run"
                 (Some [[0; 0.5; 1]; [0; 0.5; 1]])).
Proof.
  apply (read_grid_gives_written_vertices unit_square_mesh no_file
           "run" "grid.txt" 6 [[0; 0.5; 1]; [0; 0.5; 1]]).
  - exact unit_square_blocks.
  - reflexivity.
  - discriminate.
  - simpl. lia.
Defined.

(** ** Meshes created from YAML data *)

Lemma create_generated (dexp : R -> Z) (fuel : nat)
      (data : list GridLine.Data) :
  forall m m',
    CartesianStructuredMesh.create dexp fuel m data = Some (Ok m') ->
    exists new,
      CartesianStructuredMesh.gridlines m'
      = CartesianStructuredMesh.gridlines m ++ new
      /\ Forall2 (fun d g => GridLine.init dexp fuel (Some d) None None
                             = Some (Ok g)) data new.
Proof.
  induction data as [| node rest IH]; intros m m' H;
    cbn [CartesianStructuredMesh.create] in H.
  - injection H as <-. exists []. rewrite app_nil_r. split; constructor.
  - destruct (GridLine.init dexp fuel (Some node) None None)
      as [[g | x] |] eqn:Hg; cbn [fbind] in H; try discriminate.
    destruct (IH _ _ H) as [new [Hnew Hall]].
    exists (g :: new). split.
    + rewrite Hnew. cbn [CartesianStructuredMesh.gridlines].
      rewrite <- app_assoc. reflexivity.
    + constructor; assumption.
Qed.

Lemma create_app (dexp : R -> Z) (fuel : nat) (data more : list GridLine.Data) :
  forall m,
    CartesianStructuredMesh.create dexp fuel m (data ++ more)
    = (m1 <~ CartesianStructuredMesh.create dexp fuel m data ;;
       CartesianStructuredMesh.create dexp fuel m1 more).
Proof.
  induction data as [| node rest IH]; intros m; [reflexivity |].
  cbn [app CartesianStructuredMesh.create].
  destruct (GridLine.init dexp fuel (Some node) None None)
    as [[g | x] |]; cbn [fbind]; [apply IH | reflexivity | reflexivity].
Qed.

Lemma unit_square_created :
  CartesianStructuredMesh.create one_decimal_exponent 0
    CartesianStructuredMesh.init unit_square_data
  = Some (Ok unit_square_mesh).
Proof.
  unfold unit_square_data. cbn [CartesianStructuredMesh.create].
  rewrite !unit_line_init. reflexivity.
Qed.

(** X12. [create] keeps the gridlines that the mesh holds and appends one
    gridline per entry of the data, in order: each has the direction of
    its entry as label, the start of the entry, the end of the last
    sub-domain and one segment per sub-domain.  Nothing checks the
    directions: entries of one direction, or more than three entries, are
    appended as well.  Creating from a list in one call, or from its two
    parts in two calls, gives the same mesh. *)
Theorem create_appends_one_gridline_per_entry (dexp : R -> Z) (fuel : nat)
        (data : list GridLine.Data) (m m' : CartesianStructuredMesh.t) :
  CartesianStructuredMesh.create dexp fuel m data = Some (Ok m') ->
  (exists new,
      CartesianStructuredMesh.gridlines m'
      = CartesianStructuredMesh.gridlines m ++ new
      /\ Forall2 (fun d g =>
                    GridLine.label g = Some (GridLine.y_direction d)
                    /\ GridLine.start g = Some (GridLine.y_start d)
                    /\ GridLine.end_ g
                       = Some (last (map GridLine.y_end
                                         (GridLine.y_subDomains d)) 0)
                    /\ List.length (GridLine.segments g)
                       = List.length (GridLine.y_subDomains d))
                 data new)
  /\ forall more,
       CartesianStructuredMesh.create dexp fuel m (data ++ more)
       = CartesianStructuredMesh.create dexp fuel m' more.
Proof.
  intros H. split.
  - destruct (create_generated dexp fuel data m m' H) as [new [Hnew Hall]].
    exists new. split; [exact Hnew |].
    eapply Forall2_impl; [| exact Hall].
    intros d g Hg. apply GridLine_init_yaml in Hg.
    destruct Hg as [_ [Hl [Hs [He [Hends _]]]]].
    repeat split; try assumption.
    rewrite <- (length_map Segment.end_), Hends. apply length_map.
  - intros more. rewrite create_app, H. reflexivity.
Qed.

Lemma create_appends_one_gridline_per_entry_witness :
  (exists new,
      CartesianStructuredMesh.gridlines unit_square_mesh
      = CartesianStructuredMesh.gridlines CartesianStructuredMesh.init ++ new
      /\ Forall2 (fun d g =>
                    GridLine.label g = Some (GridLine.y_direction d)
                    /\ GridLine.start g = Some (GridLine.y_start d)
                    /\ GridLine.end_ g
                       = Some (last (map GridLine.y_end
                                         (GridLine.y_subDomains d)) 0)
                    /\ List.length (GridLine.segments g)
                       = List.length (GridLine.y_subDomains d))
                 unit_square_data new)
  /\ forall more,
       CartesianStructuredMesh.create one_decimal_exponent 0
         CartesianStructuredMesh.init (unit_square_data ++ more)
       = CartesianStructuredMesh.create one_decimal_exponent 0
           unit_square_mesh more.
Proof.
  exact (create_appends_one_gridline_per_entry one_decimal_exponent 0
           unit_square_data CartesianStructuredMesh.init unit_square_mesh
           unit_square_created).
Defined.

Lemma generated_gridline_info (dexp : R -> Z) (fuel : nat)
      (data : GridLine.Data) (g : GridLine.t) :
  GridLine.init dexp fuel (Some data) None None = Some (Ok g) ->
  exists info,
    GridLine.generate_yaml_info g = Ok info
    /\ GridLine.i_direction info = Some (GridLine.y_direction data)
    /\ GridLine.i_start info = GridLine.y_start data
    /\ map Segment.i_end (GridLine.i_subDomains info)
       = map GridLine.y_end (GridLine.y_subDomains data)
    /\ GridLine.nb_divisions g
       = Some (Zsum (map Segment.i_cells (GridLine.i_subDomains info))).
Proof.
  intros H.
  destruct (GridLine_init_segments _ _ _ _ _ _ H) as [_ [nbs [Hnbs Hnb]]].
  apply GridLine_init_yaml in H.
  destruct H as [_ [Hl [Hs [_ [Hends [_ Hdesc]]]]]].
  destruct (described_segments_info _ Hdesc)
    as [infos [Hm [Hie [Hic Hir]]]].
  exists (GridLine.mkInfo (GridLine.label g) (GridLine.y_start data) infos).
  unfold GridLine.generate_yaml_info. rewrite Hs, Hm. cbn [attr bind].
  cbn [GridLine.i_direction GridLine.i_start GridLine.i_subDomains].
  repeat split; try assumption.
  - apply map_Some_injective. rewrite !map_map, Hie, Hends. reflexivity.
  - rewrite Hnb. do 2 f_equal. apply map_Some_injective.
    rewrite map_map, Hic, Hnbs. reflexivity.
Qed.

Lemma generated_gridlines_info (dexp : R -> Z) (fuel : nat)
      (data : list GridLine.Data) (new : list GridLine.t) :
  Forall2 (fun d g => GridLine.init dexp fuel (Some d) None None
                      = Some (Ok g)) data new ->
  exists infos,
    mapM GridLine.generate_yaml_info new = Ok infos
    /\ map GridLine.i_direction infos
       = map (fun d => Some (GridLine.y_direction d)) data
    /\ map GridLine.i_start infos = map GridLine.y_start data
    /\ map (fun i => map Segment.i_end (GridLine.i_subDomains i)) infos
       = map (fun d => map GridLine.y_end (GridLine.y_subDomains d)) data
    /\ map GridLine.nb_divisions new
       = map Some
           (map (fun i => Zsum (map Segment.i_cells
                                    (GridLine.i_subDomains i))) infos).
Proof.
  induction 1 as [| d g data new Hg Hrest IH].
  - exists []. repeat split.
  - destruct IH as [infos [Hm [Hd [Hs [He Hn]]]]].
    destruct (generated_gridline_info dexp fuel d g Hg)
      as [info [Hi [Hid [His [Hie Hin]]]]].
    exists (info :: infos). cbn [mapM map].
    rewrite Hi. cbn [bind]. rewrite Hm. cbn [bind].
    rewrite Hd, Hs, He, Hn, Hid, His, Hie, Hin. repeat split.
Qed.

(** X13. [write_yaml_file] describes a mesh created from YAML data: the
    call succeeds, and what it writes has one entry per entry of the data,
    in order, with the same direction, the same start and the same ends of
    sub-domains; the counts of its heading are, per direction, the sum of
    the cells of the sub-domains, and the total is their product. *)
Theorem yaml_file_of_created_mesh (dexp : R -> Z) (fuel : nat)
        (data : list GridLine.Data) (m : CartesianStructuredMesh.t) :
  CartesianStructuredMesh.create dexp fuel CartesianStructuredMesh.init data
  = Some (Ok m) ->
  exists file,
    CartesianStructuredMesh.write_yaml_file m = Ok file
    /\ map GridLine.i_direction (CartesianStructuredMesh.y_data file)
       = map (fun d => Some (GridLine.y_direction d)) data
    /\ map GridLine.i_start (CartesianStructuredMesh.y_data file)
       = map GridLine.y_start data
    /\ map (fun i => map Segment.i_end (GridLine.i_subDomains i))
           (CartesianStructuredMesh.y_data file)
       = map (fun d => map GridLine.y_end (GridLine.y_subDomains d)) data
    /\ CartesianStructuredMesh.y_counts file
       = map (fun i => Zsum (map Segment.i_cells (GridLine.i_subDomains i)))
             (CartesianStructuredMesh.y_data file)
    /\ CartesianStructuredMesh.y_total file
       = Zproduct (CartesianStructuredMesh.y_counts file).
Proof.
  intros H.
  destruct (create_generated dexp fuel data _ _ H) as [new [Hnew Hall]].
  cbn [CartesianStructuredMesh.gridlines CartesianStructuredMesh.init app]
    in Hnew.
  destruct (generated_gridlines_info dexp fuel data new Hall)
    as [infos [Hm [Hd [Hs [He Hn]]]]].
  unfold CartesianStructuredMesh.write_yaml_file,
    CartesianStructuredMesh.get_number_cells.
  rewrite Hnew, Hm. cbn [bind].
  rewrite (mapM_attr_some _ _ _ Hn). cbn [bind fst snd].
  eexists. split; [reflexivity |].
  cbn [CartesianStructuredMesh.y_data CartesianStructuredMesh.y_counts
       CartesianStructuredMesh.y_total].
  repeat split; try assumption. apply reduce_mul_product.
Qed.

Lemma yaml_file_of_created_mesh_witness :
  exists file,
    CartesianStructuredMesh.write_yaml_file unit_square_mesh = Ok file
    /\ map GridLine.i_direction (CartesianStructuredMesh.y_data file)
       = map (fun d => Some (GridLine.y_direction d)) unit_square_data
    /\ map GridLine.i_start (CartesianStructuredMesh.y_data file)
       = map GridLine.y_start unit_square_data
    /\ map (fun i => map Segment.i_end (GridLine.i_subDomains i))
           (CartesianStructuredMesh.y_data file)
       = map (fun d => map GridLine.y_end (GridLine.y_subDomains d))
             unit_square_data
    /\ CartesianStructuredMesh.y_counts file
       = map (fun i => Zsum (map Segment.i_cells (GridLine.i_subDomains i)))
             (CartesianStructuredMesh.y_data file)
    /\ CartesianStructuredMesh.y_total file
       = Zproduct (CartesianStructuredMesh.y_counts file).
Proof.
  exact (yaml_file_of_created_mesh one_decimal_exponent 0 unit_square_data
           unit_square_mesh unit_square_created).
Defined.

(** ** The deprecated refinement on a segment of length zero *)

Lemma old_candidate_length_zero (width ratio : R) :
  Segment.old_candidate_length 0 width ratio = 0.
Proof.
  unfold Segment.old_candidate_length, Segment.log_quotient_fine, py_div,
    math_log.
  destruct (Req_dec_T width 0) as [Hw | Hw]; [reflexivity |]. cbn [bind].
  replace ((1 - ratio) * 0 / width) with 0 by (field; exact Hw).
  destruct (Rlt_dec 0 (1 - 0)) as [_ | H]; [| exfalso; lra]. cbn [bind].
  destruct (Rlt_dec 0 ratio) as [Hr | Hr]; [| reflexivity]. cbn [bind].
  destruct (Req_dec_T (ln ratio) 0) as [Hl | Hl]; [reflexivity |].
  cbn [bind].
  assert (Hne : ratio <> 1).
  { intros ->. apply Hl, ln_1. }
  replace (1 - 0) with 1 by lra. rewrite ln_1.
  replace (0 / ln ratio) with (IZR 0) by (field; exact Hl).
  rewrite int_round_IZR.
  destruct (Req_dec_T (1 - ratio) 0) as [H1 | H1]; [reflexivity |].
  unfold py_pow. cbn [powerRZ]. field. exact H1.
Qed.

Lemma old_loop_never_ends (width : R) (precision : Z) (fuel : nat) :
  forall s,
    (Segment.o_precision_ratio s < precision)%Z ->
    while_loop fuel
      (fun s => (Segment.o_precision_ratio s <? precision)%Z)
      (Segment.old_body 0 width) s
    = None.
Proof.
  induction fuel as [| fuel IH]; intros s Hs; cbn [while_loop];
    rewrite (proj2 (Z.ltb_lt _ _) Hs); [reflexivity |].
  unfold Segment.old_body. rewrite old_candidate_length_zero.
  destruct (Rlt_dec 0 0) as [H | _]; [exfalso; lra |].
  apply IH. exact Hs.
Qed.

(** X15. The deprecated [compute_optimal_stretch_ratio_old] never returns
    on a segment whose start and end are equal, when the given ratio has
    fewer digits than the precision: the candidate length is [0.0]
    whatever the width and the ratio (also when the [try] block raises),
    it is never below the length, so the ratio goes down for ever and the
    digit count never moves.  No number of passes ends the loop. *)
Theorem old_search_never_returns_on_empty_segment
        (dexp : R -> Z) (self : Segment.t) (s width ratio : R)
        (precision : Z) :
  Segment.start self = Some s -> Segment.end_ self = Some s ->
  (Z.abs (dexp ratio) < precision)%Z ->
  forall fuel,
    Segment.compute_optimal_stretch_ratio_old dexp fuel self width ratio
                                              precision
    = None.
Proof.
  intros Hs He Hp fuel. unfold Segment.compute_optimal_stretch_ratio_old,
    Segment.segment_length.
  rewrite Hs, He. cbn [attr bind fbind].
  replace (Rabs (s - s)) with 0
    by (replace (s - s) with 0 by lra; symmetry; apply Rabs_R0).
  rewrite old_loop_never_ends; [reflexivity | exact Hp].
Qed.

Lemma old_search_never_returns_on_empty_segment_witness :
  Segment.compute_optimal_stretch_ratio_old one_decimal_exponent 1000
    (with_bounds 1 1 0.5) 0.5 1.2 6
  = None.
Proof.
  refine (old_search_never_returns_on_empty_segment one_decimal_exponent
            (with_bounds 1 1 0.5) 1 0.5 1.2 6 _ _ _ 1000%nat);
    [reflexivity | reflexivity |].
  unfold one_decimal_exponent. simpl. lia.
Defined.

(** ** Stretched segments out of reach *)


Lemma mult_lt_div (a b c : R) : 0 < c -> a < b * c -> a / c < b.
Proof.
  intros Hc H. apply (Rmult_lt_reg_r c); [exact Hc |].
  replace (a / c * c) with a by (field; lra). exact H.
Qed.

Lemma div_nonneg (a c : R) : 0 <= a -> 0 < c -> 0 <= a / c.
Proof.
  intros Ha Hc. apply (Rmult_le_reg_r c); [exact Hc |].
  replace (a / c * c) with a by (field; lra). lra.
Qed.

Lemma half_quotient (la lt : R) :
  (0 < lt /\ 0 <= la < lt) \/ (lt < 0 /\ lt < la <= 0) ->
  0 <= la / (lt + lt) < 1 / 2.
Proof.
  intros [[Ht Ha] | [Ht Ha]].
  - split; [apply div_nonneg; lra | apply mult_lt_div; lra].
  - replace (la / (lt + lt)) with ((- la) / (- lt + - lt)) by (field; lra).
    split; [apply div_nonneg; lra | apply mult_lt_div; lra].
Qed.

Lemma log_quotient_short (L w r : R) :
  0 < w -> 0 < r -> r <> 1 -> 0 <= L -> L * (1 + sqrt r) < w ->
  exists x, Segment.log_quotient L w r = Ok x /\ int_round x = 0%Z.
Proof.
  intros Hw Hr Hr1 HL Hshort.
  set (t := sqrt r) in *.
  assert (Ht : 0 < t) by (apply sqrt_lt_R0; exact Hr).
  assert (Htt : t * t = r) by (apply sqrt_sqrt; lra).
  assert (Ht1 : t <> 1) by (intros E; apply Hr1; rewrite <- Htt, E; lra).
  set (q := L / w).
  assert (Hq0 : 0 <= q) by (apply div_nonneg; assumption).
  assert (Hq1 : q * (1 + t) < 1).
  { unfold q. replace (L / w * (1 + t)) with (L * (1 + t) / w)
      by (field; lra).
    apply mult_lt_div; lra. }
  set (a := 1 - q * (1 - r)).
  assert (Ha : (1 < t /\ 1 <= a < t) \/ (t < 1 /\ t < a <= 1)).
  { unfold a. rewrite <- Htt.
    destruct (Rlt_dec 1 t) as [H | H]; [left | right]; split;
      try lra; split; nra. }
  assert (Ha0 : 0 < a) by lra.
  assert (Hln : ln r = ln t + ln t) by (rewrite <- Htt; apply ln_mult; lra).
  assert (Hx : 0 <= ln a / (ln t + ln t) < 1 / 2).
  { apply half_quotient. destruct Ha as [[H1 [H2 H3]] | [H1 [H2 H3]]].
    - left. split; [rewrite <- ln_1; apply ln_increasing; lra |].
      split; [apply ln_nonneg; exact H2 | apply ln_increasing; lra].
    - right. split; [rewrite <- ln_1; apply ln_increasing; lra |].
      split; [apply ln_increasing; lra | apply ln_nonpos; lra]. }
  assert (Hlr : ln r <> 0).
  { rewrite Hln. intros E.
    destruct Ha as [[H1 _] | [H1 _]].
    - assert (0 < ln t) by (rewrite <- ln_1; apply ln_increasing; lra). lra.
    - assert (ln t < 0) by (rewrite <- ln_1; apply ln_increasing; lra). lra. }
  exists (ln a / ln r). split.
  - unfold Segment.log_quotient, py_div, math_log.
    destruct (Req_dec_T w 0) as [E | _]; [lra |]. cbn [bind]. fold q a.
    destruct (Rlt_dec 0 a) as [_ | H]; [| contradiction]. cbn [bind].
    destruct (Rlt_dec 0 r) as [_ | H]; [| contradiction]. cbn [bind].
    destruct (Req_dec_T (ln r) 0) as [E | _]; [contradiction | reflexivity].
  - apply int_round_eq. rewrite Hln. simpl. lra.
Qed.

(** X16. A stretched segment that is too short for its first width is
    refused with [IndexError]: when the length times [1 + sqrt(ratio)] is
    below the width, the number of divisions rounds to 0, and
    [widths[0]] does not exist.  This holds for a growing and for a
    shrinking ratio, forward and reversed. *)
Theorem short_stretched_segment_is_refused (s e w r : R) (reverse : bool) :
  0 < w -> 0 < r -> ~ uniform r ->
  Rabs (e - s) * (1 + sqrt r) < w ->
  Segment.get_vertices (prepared s e w r) reverse = Raise IndexError.
Proof.
  intros Hw Hr Hu Hshort.
  assert (Hr1 : r <> 1).
  { intros ->. apply Hu. unfold uniform.
    replace (1 - 1) with 0 by lra. rewrite Rabs_R0. lra. }
  destruct (log_quotient_short (Rabs (e - s)) w r Hw Hr Hr1
              (Rabs_pos _) Hshort) as [x [Hx Hn]].
  rewrite (get_vertices_stretched s e w r reverse Hu), Hx. cbn [bind].
  rewrite Hn. reflexivity.
Qed.

Lemma short_stretched_segment_is_refused_witness :
  Segment.get_vertices (prepared 0 0.1 1 4) false = Raise IndexError.
Proof.
  apply (short_stretched_segment_is_refused 0 0.1 1 4 false).
  - lra.
  - lra.
  - unfold uniform. replace (4 - 1) with 3 by lra.
    rewrite Rabs_pos_eq by lra. lra.
  - replace (0.1 - 0) with 0.1 by lra. rewrite Rabs_pos_eq by lra.
    replace 4 with (2 * 2) by lra. rewrite sqrt_square by lra. lra.
Defined.







(** ** Files without values *)

Lemma py_slice_nil {A : Type} (st en : Z) : py_slice (@nil A) st en = [].
Proof.
  unfold py_slice. rewrite skipn_nil. apply firstn_nil.
Qed.

Lemma np_split_nil (indices : list Z) :
  exists rest, np_split (@nil R) indices = [] :: rest.
Proof.
  unfold np_split. destruct indices as [| i indices].
  - exists []. reflexivity.
  - cbn [app]. rewrite slices_cons2, py_slice_nil. eauto.
Qed.

(** X18. [read] refuses a file that holds no value, whatever its header:
    the first chunk is empty, it passes the guard [numpy.all], and
    [vertices[0]] raises [IndexError].  The file that [write] makes of a
    mesh without gridlines is such a file. *)
Theorem read_refuses_file_without_values
        (dexp : R -> Z) (fuel : nat) (m : CartesianStructuredMesh.t)
        (fs : CartesianStructuredMesh.filesystem) (path : string)
        (infile : CartesianStructuredMesh.GridFile) :
  fs path = Some infile ->
  CartesianStructuredMesh.values infile = [] ->
  CartesianStructuredMesh.read dexp fuel m fs path
  = Some (Raise IndexError).
Proof.
  intros Hfile Hvalues. unfold CartesianStructuredMesh.read.
  rewrite Hfile, Hvalues. unfold CartesianStructuredMesh.split_loaded.
  destruct (np_split_nil
              (Zcumsum (map (fun n => (n + 1)%Z)
                            (removelast
                               (CartesianStructuredMesh.header infile)))))
    as [rest ->].
  cbn [fbind CartesianStructuredMesh.read_gridlines
       CartesianStructuredMesh.labels nth_error].
  rewrite GridLine_init_empty_vertices. reflexivity.
Qed.

Lemma read_refuses_file_without_values_witness :
  CartesianStructuredMesh.write CartesianStructuredMesh.init no_file
                                "grid.txt" 6
  = Ok (CartesianStructuredMesh.store no_file "grid.txt"
          (CartesianStructuredMesh.mkGridFile [] []))
  /\ CartesianStructuredMesh.read unused_exponent 0
       CartesianStructuredMesh.init
       (CartesianStructuredMesh.store no_file "grid.txt"
          (CartesianStructuredMesh.mkGridFile [] []))
       "grid.txt"
     = Some (Raise IndexError).
Proof.
  split; [reflexivity |].
  apply (read_refuses_file_without_values unused_exponent 0
           CartesianStructuredMesh.init _ "grid.txt"
           (CartesianStructuredMesh.mkGridFile [] []));
    reflexivity.
Defined.
